(** * A proof-of-work ledger with peer synchronisation

    Shallow embedding of [blockchain.py] (classes [Transaction], [Block],
    [Wallet], [Blockchain]) and of the chain-synchronisation part of
    [p2p_network.py] (class [P2PNode]).

    Conventions of the embedding:
    - Python [float] is the kernel's binary64 [float]; [+], [-], [*] and
      [<] are the IEEE operations of [PrimFloat].
    - Python [int] is [Z]; [str] is [string]; [Optional[str]] is
      [option string]; [List] is [list]; the [utxo_set] dictionary is a
      [gmap string float].
    - Library calls are parameters of the development: [hashlib.sha256(s
      .encode()).hexdigest()], [json.dumps(., sort_keys=True)], and the
      RSA-PSS signing and verification of a wallet.
    - Readings of [time.time()] are explicit arguments of the operation
      that takes them.
    - A Python exception is an explicit outcome, together with the state
      the interrupted operation leaves behind. *)

From Stdlib Require Import Floats.
From Stdlib Require Import Ascii String DecimalString.
From Stdlib Require DecimalPos DecimalZ.
From stdpp Require Import gmap strings list fin_maps.
From Equations Require Import Equations.

Local Open Scope Z_scope.
Local Open Scope string_scope.

(** ** Data model *)

(** [class Transaction]: a dataclass of six fields, [signature] optional. *)
Record Transaction := mkTransaction {
  sender : string;
  recipient : string;
  amount : float;
  transaction_id : string;
  timestamp : float;
  signature : option string
}.

(** [class Block]: seven dataclass fields; the attribute [hash] is assigned
    right after construction on every path of the program. *)
Record Block := mkBlock {
  index : Z;
  block_timestamp : float;
  transactions : list Transaction;
  previous_hash : string;
  nonce : Z;
  difficulty : Z;
  merkle_root : string;
  hash : string
}.

(** The values handed to [json.dumps]. *)
#[local] Unset Elimination Schemes.
Inductive json :=
| JStr (s : string)
| JInt (z : Z)
| JFloat (f : float)
| JList (l : list json)
| JDict (kvs : list (string * json)).
#[local] Set Elimination Schemes.

(** ** String helpers of the Python runtime *)

(** [str(n)] for an [int]. *)
Definition str_of_int (z : Z) : string :=
  NilZero.string_of_int (Z.to_int z).

(** [s * n] for a count [n] that is not negative. *)
Fixpoint string_repeat (s : string) (n : nat) : string :=
  match n with
  | O => ""
  | S n => s ++ string_repeat s n
  end.

(** ["0" * n]: a negative count gives the empty string. *)
Definition zeros (n : Z) : string := string_repeat "0" (Z.to_nat n).

(** [s.startswith(p)]. *)
Definition startswith (s p : string) : bool := String.prefix p s.


(** [range(0, n, 2)]. *)
Definition range_step2 (n : nat) : list nat :=
  (fun k => 2 * k)%nat <$> seq 0 ((n + 1) / 2).

(** ** Exceptions *)

Inductive exn :=
| IndexError
| KeyError (key : string).

(** The result of a call that may raise. *)
Inductive outcome (A : Type) :=
| Return (a : A)
| Raise (e : exn).
Arguments Return {A} a.
Arguments Raise {A} e.

#[global] Instance outcome_ret : MRet outcome := fun A a => Return a.
#[global] Instance outcome_bind : MBind outcome := fun A B f m =>
  match m with
  | Return a => f a
  | Raise e => Raise e
  end.

(** [d[key]] on a dictionary read from the wire: a missing key raises. *)
Definition subscript {A} (key : string) (entry : option A) : outcome A :=
  match entry with
  | Some a => Return a
  | None => Raise (KeyError key)
  end.

(** ** The library calls the program relies on *)

Class Runtime := {
  (** [hashlib.sha256(s.encode()).hexdigest()]. *)
  sha256_hexdigest : string -> string;
  (** [json.dumps(v, sort_keys=True)]. *)
  json_dumps : json -> string
}.

(** [class Wallet], reduced to the two capabilities the ledger calls: the
    RSA-PSS signature of a message, as a hexadecimal string, and its
    verification, which is [False] whenever the library call raises. *)
Record Wallet := mkWallet {
  name : string;
  private_key_sign : string -> string;
  public_key_verify : string -> string -> bool
}.

(** ** Hashing and the Merkle root *)

Section Hashing.
Context `{Runtime}.

(** [Transaction.to_dict]: five entries, the signature is not one. *)
Definition Transaction_to_dict (tx : Transaction) : json :=
  JDict [ ("sender", JStr (sender tx));
          ("recipient", JStr (recipient tx));
          ("amount", JFloat (amount tx));
          ("transaction_id", JStr (transaction_id tx));
          ("timestamp", JFloat (timestamp tx)) ].

(** [Transaction.calculate_hash]. *)
Definition Transaction_calculate_hash (tx : Transaction) : string :=
  sha256_hexdigest (json_dumps (Transaction_to_dict tx)).

(** The dictionary [block_data] of [Block.calculate_hash]. *)
Definition block_data (b : Block) : json :=
  JDict [ ("index", JInt (index b));
          ("timestamp", JFloat (block_timestamp b));
          ("transactions", JList (Transaction_to_dict <$> transactions b));
          ("previous_hash", JStr (previous_hash b));
          ("nonce", JInt (nonce b));
          ("difficulty", JInt (difficulty b));
          ("merkle_root", JStr (merkle_root b)) ].

(** [Block.calculate_hash]. *)
Definition Block_calculate_hash (b : Block) : string :=
  sha256_hexdigest (json_dumps (block_data b)).

(** [Wallet.sign_transaction]. *)
Definition sign_transaction (w : Wallet) (tx : Transaction) : string :=
  private_key_sign w (json_dumps (Transaction_to_dict tx)).

(** [Wallet.verify_signature]. *)
Definition verify_signature (w : Wallet) (tx : Transaction) (sig : string) : bool :=
  public_key_verify w sig (json_dumps (Transaction_to_dict tx)).

(** *** [Blockchain.calculate_merkle_root] *)

(** [if len(tx_hashes) % 2 == 1: tx_hashes.append(tx_hashes[-1])]. *)
Definition pad_odd (hs : list string) : list string :=
  if Nat.odd (length hs) then (hs ++ [List.last hs ""])%list else hs.

(** The loop [for i in range(0, len(tx_hashes), 2)] that fills [new_level].
    The reads [tx_hashes[i]] and [tx_hashes[i + 1]] are in range whenever
    the length is even (lemma [hash_pairs_reads_in_range]), which the
    padding step establishes. *)
Definition hash_pairs (hs : list string) : list string :=
  (fun i => sha256_hexdigest (nth i hs "" ++ nth (i + 1) hs ""))
    <$> range_step2 (length hs).

(** The loop [while len(tx_hashes) > 1]. *)
Equations merkle_loop (hs : list string) : list string by wf (length hs) lt :=
  merkle_loop hs with decide (1 < length hs)%nat => {
    | left Hlen := merkle_loop (hash_pairs (pad_odd hs));
    | right _ := hs }.
Next Obligation.
  unfold hash_pairs, range_step2, pad_odd.
  rewrite length_fmap, length_fmap, length_seq.
  apply Nat.Div0.div_lt_upper_bound.
  destruct (Nat.odd (length hs)) eqn:Hodd.
  - rewrite length_app. simpl.
    destruct (length hs) as [|[|[|n]]]; simpl in *; try lia; discriminate.
  - lia.
Qed.

Definition calculate_merkle_root (txs : list Transaction) : string :=
  match txs with
  | [] => "0"
  | _ =>
      match merkle_loop (Transaction_calculate_hash <$> txs) with
      | h :: _ => h
      | [] => "0"
      end
  end.

End Hashing.

(** ** The ledger *)

(** [class Blockchain]. The [wallets] dictionary is left out: no operation
    below reads it. The field [self.difficulty] is [bc_difficulty]. *)
Record Blockchain := mkBlockchain {
  chain : list Block;
  pending_transactions : list Transaction;
  bc_difficulty : Z;
  utxo_set : gmap string float;
  mining_reward : float;
  target_block_time : float;
  last_mining_time : float
}.

Definition with_chain (c : list Block) (self : Blockchain) : Blockchain :=
  mkBlockchain c (pending_transactions self) (bc_difficulty self) (utxo_set self)
    (mining_reward self) (target_block_time self) (last_mining_time self).

Definition with_pending_transactions (p : list Transaction) (self : Blockchain)
  : Blockchain :=
  mkBlockchain (chain self) p (bc_difficulty self) (utxo_set self)
    (mining_reward self) (target_block_time self) (last_mining_time self).

Definition with_difficulty (d : Z) (self : Blockchain) : Blockchain :=
  mkBlockchain (chain self) (pending_transactions self) d (utxo_set self)
    (mining_reward self) (target_block_time self) (last_mining_time self).

Definition with_utxo_set (u : gmap string float) (self : Blockchain) : Blockchain :=
  mkBlockchain (chain self) (pending_transactions self) (bc_difficulty self) u
    (mining_reward self) (target_block_time self) (last_mining_time self).

Definition with_last_mining_time (t : float) (self : Blockchain) : Blockchain :=
  mkBlockchain (chain self) (pending_transactions self) (bc_difficulty self)
    (utxo_set self) (mining_reward self) (target_block_time self) t.

Definition with_hash (h : string) (b : Block) : Block :=
  mkBlock (index b) (block_timestamp b) (transactions b) (previous_hash b)
    (nonce b) (difficulty b) (merkle_root b) h.

Definition with_nonce (n : Z) (b : Block) : Block :=
  mkBlock (index b) (block_timestamp b) (transactions b) (previous_hash b)
    n (difficulty b) (merkle_root b) (hash b).

Definition with_transactions (txs : list Transaction) (b : Block) : Block :=
  mkBlock (index b) (block_timestamp b) txs (previous_hash b)
    (nonce b) (difficulty b) (merkle_root b) (hash b).

Definition with_signature (sig : option string) (tx : Transaction) : Transaction :=
  mkTransaction (sender tx) (recipient tx) (amount tx) (transaction_id tx)
    (timestamp tx) sig.

(** What [add_transaction] prints before it returns; [True] is returned with
    the first line only. *)
Inductive AddResult :=
| TransactionAdded       (** "Transaction added: ..." *)
| InsufficientBalance    (** "Insufficient balance for ..." *)
| InvalidSignature       (** "Invalid transaction signature" *)
| DoubleSpendDetected.   (** "Double-spend detected!" *)

Definition returned (r : AddResult) : bool :=
  match r with
  | TransactionAdded => true
  | _ => false
  end.

(** The four readings of the clock [mine_block] and [adjust_difficulty] use:
    [new_timestamp], the [int(time.time())] of the reward's identifier, the
    reward's [timestamp], and [current_time] of [adjust_difficulty]. *)
Record MineClock := mkMineClock {
  new_timestamp : float;
  reward_id_seconds : Z;
  reward_timestamp : float;
  adjust_time : float
}.

(** How a call of [mine_block] ends: [None] is returned, an exception
    leaves it, the nonce search is still running when the fuel of the model
    is spent, or the new block is returned. *)
Inductive MineResult :=
| NoTransactions
| MineRaised (e : exn)
| SearchUnfinished
| Mined (b : Block).

Section Ledger.
Context `{Runtime}.

(** [Blockchain.create_genesis_block], at clock reading [now]. *)
Definition create_genesis_block (now : float) (self : Blockchain) : Blockchain :=
  let genesis_block := mkBlock 0 now [] "0" 0 (bc_difficulty self) "0" "" in
  let genesis_block := with_hash (Block_calculate_hash genesis_block) genesis_block in
  with_chain (chain self ++ [genesis_block])%list self.

(** [Blockchain.__init__]. *)
Definition new_Blockchain (difficulty : Z) (now : float) : Blockchain :=
  create_genesis_block now (mkBlockchain [] [] difficulty ∅ 50%float 10%float 0%float).

(** [Blockchain.get_latest_block]: [self.chain[-1]]. *)
Definition get_latest_block (self : Blockchain) : outcome Block :=
  match last (chain self) with
  | Some b => Return b
  | None => Raise IndexError
  end.

(** The body of the two loops of [get_balance]. *)
Definition apply_transaction (address : string) (balance : float) (tx : Transaction)
  : float :=
  let balance :=
    if String.eqb (recipient tx) address then (balance + amount tx)%float else balance in
  if String.eqb (sender tx) address then (balance - amount tx)%float else balance.

(** [Blockchain.get_balance]. *)
Definition get_balance (self : Blockchain) (address : string) : float :=
  let balance := 0%float in
  let balance :=
    foldl (fun balance block => foldl (apply_transaction address) balance (transactions block))
      balance (chain self) in
  foldl (apply_transaction address) balance (pending_transactions self).

(** The loop over [self.pending_transactions] in [is_valid_transaction]. *)
Fixpoint no_conflicting_pending (transaction : Transaction) (pending : list Transaction)
  : bool :=
  match pending with
  | [] => true
  | pending_tx :: rest =>
      if String.eqb (sender pending_tx) (sender transaction)
         && negb (String.eqb (transaction_id pending_tx) (transaction_id transaction))
      then false
      else no_conflicting_pending transaction rest
  end.

(** [Blockchain.is_valid_transaction]. *)
Definition is_valid_transaction (self : Blockchain) (transaction : Transaction) : bool :=
  if String.eqb (sender transaction) "Genesis" then true
  else if (get_balance self (sender transaction) <? amount transaction)%float then false
  else no_conflicting_pending transaction (pending_transactions self).

(** [Blockchain.add_transaction]; [now_seconds] is [int(time.time())] and
    [now] the [time.time()] of the timestamp. *)
Definition add_transaction (self : Blockchain) (sender recipient : string)
    (amount : float) (wallet : Wallet) (now_seconds : Z) (now : float)
  : AddResult * Blockchain :=
  if negb (String.eqb sender "Genesis") && (get_balance self sender <? amount)%float
  then (InsufficientBalance, self)
  else
    let transaction :=
      mkTransaction sender recipient amount
        (sender ++ "_" ++ recipient ++ "_" ++ str_of_int now_seconds) now None in
    let transaction :=
      with_signature (Some (sign_transaction wallet transaction)) transaction in
    if negb (verify_signature wallet transaction (default "" (signature transaction)))
    then (InvalidSignature, self)
    else if negb (is_valid_transaction self transaction)
    then (DoubleSpendDetected, self)
    else (TransactionAdded,
          with_pending_transactions (pending_transactions self ++ [transaction])%list self).

(** One step of the inner loop of [update_utxo_set]. *)
Definition credit (utxo : gmap string float) (tx : Transaction) : gmap string float :=
  let utxo :=
    if decide (is_Some (utxo !! recipient tx)) then utxo
    else <[recipient tx := 0%float]> utxo in
  <[recipient tx := (default 0%float (utxo !! recipient tx) + amount tx)%float]> utxo.

(** [Blockchain.update_utxo_set]. *)
Definition update_utxo_set (self : Blockchain) : Blockchain :=
  with_utxo_set
    (foldl (fun utxo block => foldl credit utxo (transactions block)) ∅ (chain self))
    self.

(** [Blockchain.adjust_difficulty], at clock reading [current_time]. *)
Definition adjust_difficulty (current_time : float) (self : Blockchain) : Blockchain :=
  if (length (chain self) <? 2)%nat then self
  else
    let self :=
      if (0 <? last_mining_time self)%float then
        let time_diff := (current_time - last_mining_time self)%float in
        if (time_diff <? target_block_time self * 0.5)%float
        then with_difficulty (bc_difficulty self + 1) self
        else if (target_block_time self * 2 <? time_diff)%float
        then with_difficulty (Z.max 1 (bc_difficulty self - 1)) self
        else self
      else self in
    with_last_mining_time current_time self.

(** The [while True] loop of [mine_block]: at most [fuel] nonces are tried. *)
Fixpoint proof_of_work (fuel : nat) (target : string) (new_block : Block)
  : option Block :=
  match fuel with
  | O => None
  | S fuel =>
      let new_block := with_nonce (nonce new_block + 1) new_block in
      let block_hash := Block_calculate_hash new_block in
      if startswith block_hash target then Some new_block
      else proof_of_work fuel target new_block
  end.

(** [Blockchain.mine_block]. *)
Definition mine_block (fuel : nat) (self : Blockchain) (miner_address : string)
    (clock : MineClock) : MineResult * Blockchain :=
  match pending_transactions self with
  | [] => (NoTransactions, self)
  | _ =>
      match get_latest_block self with
      | Raise e => (MineRaised e, self)
      | Return previous_block =>
          let new_index := index previous_block + 1 in
          let reward_transaction :=
            mkTransaction "System" miner_address (mining_reward self)
              ("reward_" ++ str_of_int new_index ++ "_"
                 ++ str_of_int (reward_id_seconds clock))
              (reward_timestamp clock) None in
          let all_transactions := (pending_transactions self ++ [reward_transaction])%list in
          let new_block :=
            mkBlock new_index (new_timestamp clock) all_transactions
              (Block_calculate_hash previous_block) 0 (bc_difficulty self)
              (calculate_merkle_root all_transactions) "" in
          let target := zeros (bc_difficulty self) in
          match proof_of_work fuel target new_block with
          | None => (SearchUnfinished, self)
          | Some new_block =>
              let new_block := with_hash (Block_calculate_hash new_block) new_block in
              let self := with_chain (chain self ++ [new_block])%list self in
              let self := with_pending_transactions [] self in
              let self := update_utxo_set self in
              let self := adjust_difficulty (adjust_time clock) self in
              (Mined new_block, self)
          end
      end
  end.

(** The three checks [is_chain_valid] makes at index [i]; the two reads
    [self.chain[i]] and [self.chain[i - 1]] are in range for every [i] of
    [range(1, len(self.chain))]. *)
Definition check_block (chain : list Block) (i : nat) : bool :=
  match chain !! i, chain !! (i - 1)%nat with
  | Some current_block, Some previous_block =>
      if negb (String.eqb (Block_calculate_hash current_block) (hash current_block))
      then false
      else if negb (String.eqb (previous_hash current_block) (hash previous_block))
      then false
      else if negb (startswith (hash current_block) (zeros (difficulty current_block)))
      then false
      else true
  | _, _ => false
  end.

(** [Blockchain.is_chain_valid]: the first failing index returns [False]. *)
Definition is_chain_valid (self : Blockchain) : bool :=
  forallb (check_block (chain self)) (seq 1 (length (chain self) - 1)).

(** [Blockchain.is_block_valid]. *)
Definition is_block_valid (self : Blockchain) (block : Block) : outcome bool :=
  latest ← get_latest_block self;
  if negb (String.eqb (previous_hash block) (hash latest)) then mret false
  else if negb (startswith (hash block) (zeros (difficulty block))) then mret false
  else if negb (String.eqb (Block_calculate_hash block) (hash block)) then mret false
  else mret true.

(** [Blockchain.add_block]. *)
Definition add_block (self : Blockchain) (block : Block) : outcome bool * Blockchain :=
  match is_block_valid self block with
  | Raise e => (Raise e, self)
  | Return true =>
      (Return true, update_utxo_set (with_chain (chain self ++ [block])%list self))
  | Return false => (Return false, self)
  end.

End Ledger.

(** ** Chain synchronisation ([P2PNode]) *)

(** A transaction dictionary of a received message. [None] is a key the
    dictionary does not have. *)
Record TxDict := mkTxDict {
  td_sender : option string;
  td_recipient : option string;
  td_amount : option float;
  td_transaction_id : option string;
  td_timestamp : option float;
  td_signature : option string
}.

(** A block dictionary of a received message. *)
Record BlockDict := mkBlockDict {
  bd_index : option Z;
  bd_timestamp : option float;
  bd_transactions : option (list TxDict);
  bd_previous_hash : option string;
  bd_nonce : option Z;
  bd_difficulty : option Z;
  bd_merkle_root : option string;
  bd_hash : option string
}.

(** [asdict(tx)]. *)
Definition tx_asdict (tx : Transaction) : TxDict :=
  mkTxDict (Some (sender tx)) (Some (recipient tx)) (Some (amount tx))
    (Some (transaction_id tx)) (Some (timestamp tx)) (signature tx).

(** The entry [send_chain] makes for a block: [block.to_dict()] with the key
    ['hash'] added. *)
Definition block_to_wire (b : Block) : BlockDict :=
  mkBlockDict (Some (index b)) (Some (block_timestamp b))
    (Some (tx_asdict <$> transactions b)) (Some (previous_hash b))
    (Some (nonce b)) (Some (difficulty b)) (Some (merkle_root b)) (Some (hash b)).

(** The [Transaction(...)] call of [handle_chain_response]; the signature is
    read with [tx_data.get('signature')]. *)
Definition transaction_of_dict (tx_data : TxDict) : outcome Transaction :=
  s ← subscript "sender" (td_sender tx_data);
  r ← subscript "recipient" (td_recipient tx_data);
  a ← subscript "amount" (td_amount tx_data);
  i ← subscript "transaction_id" (td_transaction_id tx_data);
  t ← subscript "timestamp" (td_timestamp tx_data);
  mret (mkTransaction s r a i t (td_signature tx_data)).

(** The inner loop of [handle_chain_response] that fills [transactions]. *)
Fixpoint transactions_of_dicts (txs : list TxDict) : outcome (list Transaction) :=
  match txs with
  | [] => mret []
  | tx_data :: rest =>
      tx ← transaction_of_dict tx_data;
      txs ← transactions_of_dicts rest;
      mret (tx :: txs)
  end.

(** The body of the outer loop of [handle_chain_response], up to the
    assignment of [block.hash]. *)
Definition block_of_dict (block_data : BlockDict) : outcome Block :=
  tx_dicts ← subscript "transactions" (bd_transactions block_data);
  txs ← transactions_of_dicts tx_dicts;
  i ← subscript "index" (bd_index block_data);
  t ← subscript "timestamp" (bd_timestamp block_data);
  p ← subscript "previous_hash" (bd_previous_hash block_data);
  n ← subscript "nonce" (bd_nonce block_data);
  d ← subscript "difficulty" (bd_difficulty block_data);
  m ← subscript "merkle_root" (bd_merkle_root block_data);
  h ← subscript "hash" (bd_hash block_data);
  mret (mkBlock i t txs p n d m h).

(** The loop of [validate_received_chain] over [range(1, len(chain_data))]. *)
Fixpoint validate_links (previous_block : BlockDict) (rest : list BlockDict)
  : outcome bool :=
  match rest with
  | [] => mret true
  | current_block :: rest =>
      cp ← subscript "previous_hash" (bd_previous_hash current_block);
      ph ← subscript "hash" (bd_hash previous_block);
      if negb (String.eqb cp ph) then mret false
      else
        ci ← subscript "index" (bd_index current_block);
        pi ← subscript "index" (bd_index previous_block);
        if negb (ci =? pi + 1)%Z then mret false
        else validate_links current_block rest
  end.

(** [P2PNode.validate_received_chain]. *)
Definition validate_received_chain (chain_data : list BlockDict) : outcome bool :=
  match chain_data with
  | [] => mret false
  | first :: rest =>
      i ← subscript "index" (bd_index first);
      if negb (i =? 0)%Z then mret false
      else
        p ← subscript "previous_hash" (bd_previous_hash first);
        if negb (String.eqb p "0") then mret false
        else validate_links first rest
  end.

Section Synchronisation.
Context `{Runtime}.

(** The outer loop of [handle_chain_response]: each block is appended to
    [self.blockchain.chain] as soon as it is built, so an exception leaves
    the blocks appended so far. *)
Fixpoint append_received (self : Blockchain) (chain_data : list BlockDict)
  : outcome unit * Blockchain :=
  match chain_data with
  | [] => (Return (), self)
  | block_data :: rest =>
      match block_of_dict block_data with
      | Raise e => (Raise e, self)
      | Return block =>
          append_received (with_chain (chain self ++ [block])%list self) rest
      end
  end.

(** [P2PNode.handle_chain_response], on the node's [self.blockchain]. *)
Definition handle_chain_response (self : Blockchain) (chain_data : list BlockDict)
  : outcome unit * Blockchain :=
  if (length (chain self) <? length chain_data)%nat then
    match validate_received_chain chain_data with
    | Raise e => (Raise e, self)
    | Return false => (Return (), self)
    | Return true =>
        match append_received (with_chain [] self) chain_data with
        | (Raise e, self) => (Raise e, self)
        | (Return _, self) => (Return (), update_utxo_set self)
        end
    end
  else (Return (), self).

(** *** States of a running node *)

(** One call of an operation on the ledger, with any arguments. *)
Inductive step : Blockchain -> Blockchain -> Prop :=
| step_add_transaction self sender recipient amount wallet now_seconds now :
    step self
      (add_transaction self sender recipient amount wallet now_seconds now).2
| step_mine_block self fuel miner_address clock :
    step self (mine_block fuel self miner_address clock).2
| step_add_block self block :
    step self (add_block self block).2
| step_handle_chain_response self chain_data :
    step self (handle_chain_response self chain_data).2.

(** The states a node reaches from [Blockchain(difficulty)]. *)
Inductive reachable : Blockchain -> Prop :=
| reachable_new difficulty now :
    reachable (new_Blockchain difficulty now)
| reachable_step self self' :
    reachable self -> step self self' -> reachable self'.

(** The same, when every chain a peer sends is made of complete block
    dictionaries, as [send_chain] builds them. *)
Inductive step_complete : Blockchain -> Blockchain -> Prop :=
| stepc_add_transaction self sender recipient amount wallet now_seconds now :
    step_complete self
      (add_transaction self sender recipient amount wallet now_seconds now).2
| stepc_mine_block self fuel miner_address clock :
    step_complete self (mine_block fuel self miner_address clock).2
| stepc_add_block self block :
    step_complete self (add_block self block).2
| stepc_handle_chain_response self received :
    step_complete self (handle_chain_response self (block_to_wire <$> received)).2.

Inductive reachable_complete : Blockchain -> Prop :=
| reachablec_new difficulty now :
    reachable_complete (new_Blockchain difficulty now)
| reachablec_step self self' :
    reachable_complete self -> step_complete self self' -> reachable_complete self'.

End Synchronisation.


(** ** Relaying transactions and blocks ([P2PNode]) *)

(** The dictionary of a 'new_transaction' message. [None] is a missing
    key; the value of 'signature' may itself be [None]. *)
Record TxMessage := mkTxMessage {
  tm_sender : option string;
  tm_recipient : option string;
  tm_amount : option float;
  tm_transaction_id : option string;
  tm_timestamp : option float;
  tm_signature : option (option string)
}.

(** The payload [broadcast_transaction] builds. *)
Definition transaction_message (transaction : Transaction) : TxMessage :=
  mkTxMessage (Some (sender transaction)) (Some (recipient transaction))
    (Some (amount transaction)) (Some (transaction_id transaction))
    (Some (timestamp transaction)) (Some (signature transaction)).

(** [tx.to_dict()] as an entry of a block message: no key 'signature'. *)
Definition tx_to_dict_entry (tx : Transaction) : TxDict :=
  mkTxDict (Some (sender tx)) (Some (recipient tx)) (Some (amount tx))
    (Some (transaction_id tx)) (Some (timestamp tx)) None.

(** The payload [broadcast_block] builds. *)
Definition block_message (block : Block) : BlockDict :=
  mkBlockDict (Some (index block)) (Some (block_timestamp block))
    (Some (tx_to_dict_entry <$> transactions block)) (Some (previous_hash block))
    (Some (nonce block)) (Some (difficulty block)) (Some (merkle_root block))
    (Some (hash block)).

(** The [Transaction(...)] call of [handle_new_transaction]: here the
    signature is read with [transaction_data['signature']]. *)
Definition transaction_of_message (transaction_data : TxMessage) : outcome Transaction :=
  s ← subscript "sender" (tm_sender transaction_data);
  r ← subscript "recipient" (tm_recipient transaction_data);
  a ← subscript "amount" (tm_amount transaction_data);
  i ← subscript "transaction_id" (tm_transaction_id transaction_data);
  t ← subscript "timestamp" (tm_timestamp transaction_data);
  sig ← subscript "signature" (tm_signature transaction_data);
  mret (mkTransaction s r a i t sig).

(** [P2PNode.handle_new_transaction], on the node's [self.blockchain]. *)
Definition handle_new_transaction (self : Blockchain) (transaction_data : TxMessage)
  : outcome unit * Blockchain :=
  match transaction_of_message transaction_data with
  | Raise e => (Raise e, self)
  | Return transaction =>
      if existsb
           (fun tx => String.eqb (transaction_id tx) (transaction_id transaction))
           (pending_transactions self)
      then (Return (), self)
      else (Return (),
            with_pending_transactions
              (pending_transactions self ++ [transaction])%list self)
  end.

Section Relay.
Context `{Runtime}.

(** The condition of [handle_new_block]:
    [is_block_valid(block) and block.previous_hash == get_latest_block().hash]. *)
Definition valid_and_extends (self : Blockchain) (block : Block) : outcome bool :=
  match is_block_valid self block with
  | Raise e => Raise e
  | Return false => Return false
  | Return true =>
      latest ← get_latest_block self;
      mret (String.eqb (previous_hash block) (hash latest))
  end.

(** [P2PNode.handle_new_block], on the node's [self.blockchain]. *)
Definition handle_new_block (self : Blockchain) (block_data : BlockDict)
  : outcome unit * Blockchain :=
  match block_of_dict block_data with
  | Raise e => (Raise e, self)
  | Return block =>
      match valid_and_extends self block with
      | Raise e => (Raise e, self)
      | Return false => (Return (), self)
      | Return true =>
          match add_block self block with
          | (Raise e, self) => (Raise e, self)
          | (Return _, self) =>
              let block_tx_ids : gset string :=
                list_to_set (transaction_id <$> transactions block) in
              (Return (),
               with_pending_transactions
                 (filter (fun tx => transaction_id tx ∉ block_tx_ids)
                    (pending_transactions self))
                 self)
          end
      end
  end.

End Relay.

(** ** The node and its peers *)

(** [class P2PNode], without its socket and its [running] flag. *)
Record P2PNode := mkP2PNode {
  host : string;
  port : Z;
  blockchain : Blockchain;
  peers : gset string
}.

(** [f"{self.host}:{self.port}"]. *)
Definition own_address (self : P2PNode) : string :=
  host self ++ ":" ++ str_of_int (port self).

Definition with_blockchain (b : Blockchain) (self : P2PNode) : P2PNode :=
  mkP2PNode (host self) (port self) b (peers self).

Definition with_peers (p : gset string) (self : P2PNode) : P2PNode :=
  mkP2PNode (host self) (port self) (blockchain self) p.

(** [P2PNode.add_peer]. *)
Definition add_peer (self : P2PNode) (peer_address : string) : P2PNode :=
  if negb (String.eqb peer_address (own_address self))
  then with_peers (peers self ∪ {[peer_address]}) self
  else self.

(** [P2PNode.remove_peer]. *)
Definition remove_peer (self : P2PNode) (peer_address : string) : P2PNode :=
  with_peers (peers self ∖ {[peer_address]}) self.

(** [P2PNode.handle_peer_discovery]. *)
Definition handle_peer_discovery (self : P2PNode) (discovered : list string) : P2PNode :=
  foldl (fun self peer =>
           if negb (String.eqb peer (own_address self)) then add_peer self peer
           else self)
    self discovered.

(** A decoded message: the value of 'type', read with [message.get], and
    the payload keys that [process_message] subscripts. *)
Record Message := mkMessage {
  msg_type : option string;
  msg_transaction : option TxMessage;
  msg_block : option BlockDict;
  msg_chain : option (list BlockDict);
  msg_peers : option (list string)
}.

Section Dispatch.
Context `{Runtime}.

(** [P2PNode.process_message]. For 'chain_request' the node answers with
    [send_chain], which writes to a socket, catches what that raises and
    changes nothing of the node. *)
Definition process_message (self : P2PNode) (message : Message)
  : outcome unit * P2PNode :=
  let message_type := msg_type message in
  if bool_decide (message_type = Some "new_transaction") then
    match subscript "transaction" (msg_transaction message) with
    | Raise e => (Raise e, self)
    | Return transaction_data =>
        let r := handle_new_transaction (blockchain self) transaction_data in
        (r.1, with_blockchain r.2 self)
    end
  else if bool_decide (message_type = Some "new_block") then
    match subscript "block" (msg_block message) with
    | Raise e => (Raise e, self)
    | Return block_data =>
        let r := handle_new_block (blockchain self) block_data in
        (r.1, with_blockchain r.2 self)
    end
  else if bool_decide (message_type = Some "chain_request") then (Return (), self)
  else if bool_decide (message_type = Some "chain_response") then
    match subscript "chain" (msg_chain message) with
    | Raise e => (Raise e, self)
    | Return chain_data =>
        let r := handle_chain_response (blockchain self) chain_data in
        (r.1, with_blockchain r.2 self)
    end
  else if bool_decide (message_type = Some "peer_discovery") then
    match subscript "peers" (msg_peers message) with
    | Raise e => (Raise e, self)
    | Return discovered => (Return (), handle_peer_discovery self discovered)
    end
  else (Return (), self).

(** *** Ledgers built without peers *)

(** One call of a local operation: a submission or a mined block. *)
Inductive step_local : Blockchain -> Blockchain -> Prop :=
| stepl_add_transaction self sender recipient amount wallet now_seconds now :
    step_local self
      (add_transaction self sender recipient amount wallet now_seconds now).2
| stepl_mine_block self fuel miner_address clock :
    step_local self (mine_block fuel self miner_address clock).2.

Inductive reachable_local : Blockchain -> Prop :=
| reachablel_new difficulty now :
    reachable_local (new_Blockchain difficulty now)
| reachablel_step self self' :
    reachable_local self -> step_local self self' -> reachable_local self'.

End Dispatch.

(** ** The immutability demonstration *)

Definition with_amount (a : float) (tx : Transaction) : Transaction :=
  mkTransaction (sender tx) (recipient tx) a (transaction_id tx) (timestamp tx)
    (signature tx).

(** [target_block.transactions[0].amount = original_amount + 1.0], when the
    block has a transaction. *)
Definition tamper_first_amount (target_block : Block) : Block :=
  match transactions target_block with
  | [] => target_block
  | tx :: rest =>
      with_transactions (with_amount (amount tx + 1)%float tx :: rest) target_block
  end.

(** [target_block.transactions[0].amount = original_amount], when the block
    has a transaction. *)
Definition restore_first_amount (original_amount : option float) (target_block : Block)
  : Block :=
  match transactions target_block, original_amount with
  | tx :: rest, Some a => with_transactions (with_amount a tx :: rest) target_block
  | _, _ => target_block
  end.

Section Demonstration.
Context `{Runtime}.

(** [Blockchain.demonstrate_immutability]: the value returned and the
    ledger left behind; what it prints is left out. *)
Definition demonstrate_immutability (self : Blockchain) : bool * Blockchain :=
  if (length (chain self) <? 2)%nat then (false, self)
  else
    match chain self !! 1%nat with
    | None => (false, self)
    | Some target_block =>
        let original_hash := hash target_block in
        let original_amount := amount <$> head (transactions target_block) in
        let tampered_block := tamper_first_amount target_block in
        let self := with_chain (<[1%nat := tampered_block]> (chain self)) self in
        let chain_valid := is_chain_valid self in
        let restored_block :=
          with_hash original_hash
            (restore_first_amount original_amount tampered_block) in
        let self := with_chain (<[1%nat := restored_block]> (chain self)) self in
        (negb chain_valid, self)
    end.

End Demonstration.

(** ** Reference definitions, following the specification *)

Section Reference.
Context `{Runtime}.

(** "Pair adjacent leaves and hash the concatenation of their two hash
    strings". *)
Fixpoint pair_adjacent (level : list string) : list string :=
  match level with
  | a :: b :: rest => sha256_hexdigest (a ++ b) :: pair_adjacent rest
  | _ => []
  end.

(** "If the current level has odd size, duplicate the last element before
    pairing". *)
Definition duplicate_last_if_odd (level : list string) : list string :=
  match last level with
  | Some h => if Nat.odd (length level) then (level ++ [h])%list else level
  | None => level
  end.

(** "Repeat until one hash remains; that is the root". *)
Inductive reduces_to_root : list string -> string -> Prop :=
| one_hash_remains root :
    reduces_to_root [root] root
| next_level level root :
    (1 < length level)%nat ->
    reduces_to_root (pair_adjacent (duplicate_last_if_odd level)) root ->
    reduces_to_root level root.

(** [merkle_root(transactions)] of the specification, as a relation between
    a transaction sequence and its root. *)
Inductive merkle_root_spec : list Transaction -> string -> Prop :=
| merkle_root_empty :
    merkle_root_spec [] "0"
| merkle_root_leaves txs root :
    txs <> [] ->
    reduces_to_root (Transaction_calculate_hash <$> txs) root ->
    merkle_root_spec txs root.

(** "Sum of the amounts received", with nothing subtracted: what the
    entry of [address] in a rebuilt [utxo_set] should hold, if any. *)
Definition credited (address : string) (total : option float) (tx : Transaction)
  : option float :=
  if String.eqb (recipient tx) address
  then Some (default 0%float total + amount tx)%float
  else total.

Definition received_only (chain : list Block) (address : string) : option float :=
  foldl (fun total block => foldl (credited address) total (transactions block))
    None chain.

(** "Begins with at least [n] ASCII '0' characters". *)
Definition leading_zeros_at_least (n : Z) (s : string) : Prop :=
  forall i : nat, Z.of_nat i < n -> String.get i s = Some "0"%char.

(** The adjustment rule of the specification, from the time [elapsed] since
    the previous adjustment check: one more below half the target, one less
    but never below 1 above twice the target, and no change otherwise. *)
Definition difficulty_rule (elapsed target : float) (d : Z) : Z :=
  if (elapsed <? target * 0.5)%float then d + 1
  else if (target * 2 <? elapsed)%float then Z.max 1 (d - 1)
  else d.

(** The validity of a chain: the genesis block is trusted, and every later
    block links to the stored hash of the block before it, meets its own
    difficulty and stores its own content hash. *)
Definition chain_valid_spec (chain : list Block) : Prop :=
  forall (i : nat) (current previous : Block),
    (1 <= i)%nat ->
    chain !! i = Some current ->
    chain !! (i - 1)%nat = Some previous ->
    previous_hash current = hash previous /\
    startswith (hash current) (zeros (difficulty current)) = true /\
    Block_calculate_hash current = hash current.

End Reference.

(** The structural check on a received chain: the first block has the shape
    of a genesis block, every later block names the stored hash of the block
    before it, and the indices go up by one. *)
Definition structurally_sound (received : list Block) : Prop :=
  (exists first, received !! O = Some first /\
                 index first = 0 /\ previous_hash first = "0") /\
  forall (i : nat) (current previous : Block),
    (1 <= i)%nat ->
    received !! i = Some current ->
    received !! (i - 1)%nat = Some previous ->
    previous_hash current = hash previous /\
    index current = index previous + 1.

(** The links between a block and the blocks after it, as the loop of
    [validate_received_chain] walks them. *)
Fixpoint linked (previous : Block) (rest : list Block) : Prop :=
  match rest with
  | [] => True
  | current :: rest =>
      previous_hash current = hash previous /\
      index current = index previous + 1 /\
      linked current rest
  end.

(** The invariant of the first block: index 0 and previous hash "0". *)
Definition genesis_shaped (self : Blockchain) : Prop :=
  exists first, chain self !! O = Some first /\
                index first = 0 /\ previous_hash first = "0".


(** ** Predicates of the further properties *)

Section Invariants.
Context `{Runtime}.

(** A ledger whose chain is valid and whose every block, the genesis block
    included, stores its own content hash. *)
Definition honest_ledger (self : Blockchain) : Prop :=
  chain_valid_spec (chain self) /\
  forall b, b ∈ chain self -> hash b = Block_calculate_hash b.


End Invariants.



(** A block as a peer rebuilds it from [broadcast_block]: its transactions
    carry no signature. *)
Definition without_signatures (b : Block) : Block :=
  with_transactions (with_signature None <$> transactions b) b.

(** Two ledgers with the same difficulty, reward, target block time and
    time of the last adjustment check. *)
Definition same_parameters (self self' : Blockchain) : Prop :=
  bc_difficulty self' = bc_difficulty self /\
  mining_reward self' = mining_reward self /\
  target_block_time self' = target_block_time self /\
  last_mining_time self' = last_mining_time self.


(** ** Executable stand-ins for the library calls

    Used to run the operations on concrete states. [checksum_hexdigest] is a
    polynomial checksum printed as eight hexadecimal digits; [plain_dumps]
    prints a value in one line, a float by its mantissa and exponent. *)

Definition hex_digit (n : N) : string :=
  match n with
  | 0%N => "0" | 1%N => "1" | 2%N => "2" | 3%N => "3"
  | 4%N => "4" | 5%N => "5" | 6%N => "6" | 7%N => "7"
  | 8%N => "8" | 9%N => "9" | 10%N => "a" | 11%N => "b"
  | 12%N => "c" | 13%N => "d" | 14%N => "e" | _ => "f"
  end.

Fixpoint hex_fixed (width : nat) (n : N) : string :=
  match width with
  | O => ""
  | S width => hex_fixed width (n / 16)%N ++ hex_digit (n mod 16)%N
  end.

Fixpoint checksum (acc : N) (s : string) : N :=
  match s with
  | EmptyString => acc
  | String c s => checksum ((acc * 31 + Ascii.N_of_ascii c) mod 4294967296)%N s
  end.

Definition checksum_hexdigest (s : string) : string :=
  hex_fixed 8 (checksum 7%N s).

Definition float_text (f : float) : string :=
  match Prim2SF f with
  | S754_zero false => "0.0"
  | S754_zero true => "-0.0"
  | S754_infinity false => "Infinity"
  | S754_infinity true => "-Infinity"
  | S754_nan => "NaN"
  | S754_finite s m e =>
      (if s then "-" else "") ++ str_of_int (Z.pos m) ++ "p" ++ str_of_int e
  end.

Fixpoint plain_dumps (v : json) : string :=
  match v with
  | JStr s => "'" ++ s ++ "'"
  | JInt z => str_of_int z
  | JFloat f => float_text f
  | JList l => "[" ++ String.concat ", " (map plain_dumps l) ++ "]"
  | JDict kvs =>
      "{" ++ String.concat ", "
               (map (fun kv => "'" ++ fst kv ++ "': " ++ plain_dumps (snd kv)) kvs)
          ++ "}"
  end.

Definition test_runtime : Runtime :=
  {| sha256_hexdigest := checksum_hexdigest; json_dumps := plain_dumps |}.

(** A wallet whose signatures are the message itself, and which accepts
    exactly those. *)
Definition test_wallet (owner : string) : Wallet :=
  {| name := owner;
     private_key_sign := fun message => message;
     public_key_verify := fun sig message => String.eqb sig message |}.


(** ** A run of the double-spend demonstration

    The calls of [demo.py], on the stand-ins above: a ledger of difficulty
    2, 100 coins from "Genesis" to Alice, a block mined by Alice, and a
    payment of 50 coins from Alice to Bob left pending; then a second block,
    mined three seconds after the first. *)

Definition demo_new : Blockchain :=
  Eval vm_compute in @new_Blockchain test_runtime 2 1000%float.

Definition demo_funded : Blockchain :=
  Eval vm_compute in
    (@add_transaction test_runtime demo_new "Genesis" "Alice" 100%float
       (test_wallet "Alice") 1001 1001.5%float).2.

Definition demo_clock : MineClock :=
  mkMineClock 1002%float 1002 1002.25%float 1003%float.

Definition demo_mined : Blockchain :=
  Eval vm_compute in
    (@mine_block test_runtime 5000 demo_funded "Alice" demo_clock).2.

Definition demo_block : Block :=
  Eval vm_compute in default (mkBlock 0 0 [] "" 0 0 "" "") (last (chain demo_mined)).

Definition demo_payment : Transaction :=
  Eval vm_compute in
    mkTransaction "Alice" "Bob" 50%float "Alice_Bob_1004" 1004.5%float
      (Some (@sign_transaction test_runtime (test_wallet "Alice")
               (mkTransaction "Alice" "Bob" 50%float "Alice_Bob_1004" 1004.5%float
                  None))).

Definition demo_paying : Blockchain :=
  Eval vm_compute in
    (@add_transaction test_runtime demo_mined "Alice" "Bob" 50%float
       (test_wallet "Alice") 1004 1004.5%float).2.

Definition demo_clock_soon : MineClock :=
  mkMineClock 1005%float 1005 1005.25%float 1006%float.

Definition demo_mined_again : Blockchain :=
  Eval vm_compute in
    (@mine_block test_runtime 5000 demo_paying "Bob" demo_clock_soon).2.

Definition demo_block_again : Block :=
  Eval vm_compute in
    default (mkBlock 0 0 [] "" 0 0 "" "") (last (chain demo_mined_again)).

(** *** Tampering with the committed chain of [demo_mined] *)



(** *** Chains received from a peer *)

(** A two-block chain that passes the structural check, whose second block
    stores a hash that is not its content hash. *)
Definition forged_chain : list Block :=
  [ mkBlock 0 999%float [] "0" 0 2 "0" "g";
    mkBlock 1 1000.5%float [] "g" 0 2 "0" "forged" ].

Definition demo_adopted : Blockchain :=
  Eval vm_compute in
    (handle_chain_response demo_new (block_to_wire <$> forged_chain)).2.

Definition demo_adopted_funded : Blockchain :=
  Eval vm_compute in
    (@add_transaction test_runtime demo_adopted "Genesis" "Alice" 100%float
       (test_wallet "Alice") 1001 1001.5%float).2.

Definition demo_adopted_mined : Blockchain :=
  Eval vm_compute in
    (@mine_block test_runtime 5000 demo_adopted_funded "Alice" demo_clock).2.

Definition demo_adopted_block : Block :=
  Eval vm_compute in
    default (mkBlock 0 0 [] "" 0 0 "" "") (last (chain demo_adopted_mined)).

(** Two block dictionaries with the keys the structural check reads and no
    others. *)
Definition bare_chain_data : list BlockDict :=
  [ mkBlockDict (Some 0) None None (Some "0") None None None (Some "g");
    mkBlockDict (Some 1) None None (Some "g") None None None None ].

Definition demo_wiped : Blockchain :=
  Eval vm_compute in
    (handle_chain_response demo_new bare_chain_data).2.

(** A complete genesis dictionary followed by a dictionary with the keys
    the structural check reads and no others. *)
Definition half_chain_data : list BlockDict :=
  [ block_to_wire (mkBlock 0 999%float [] "0" 0 2 "0" "g");
    mkBlockDict (Some 1) None None (Some "g") None None None (Some "h") ].

Definition demo_cut : Blockchain :=
  Eval vm_compute in
    (handle_chain_response demo_new half_chain_data).2.

(** ** A stand-in without collisions

    [exact_dumps] writes a value so that it can be read back: every
    constructor and every character is announced by a mark. The digest
    [exact_hexdigest] is the text itself behind four zeros. Distinct block
    contents get distinct content hashes on this stand-in. *)










(** *** The first block of the demonstration on this stand-in *)




(** * Properties *)

(** ** The Merkle root *)

Section MerkleFacts.
Context `{Runtime}.

Lemma range_step2_SS n :
  range_step2 (S (S n)) = O :: ((fun i => S (S i)) <$> range_step2 n).
Proof.
  unfold range_step2.
  replace (S (S n) + 1)%nat with (n + 1 + 1 * 2)%nat by lia.
  rewrite Nat.div_add by lia.
  replace ((n + 1) / 2 + 1)%nat with (S ((n + 1) / 2)) by lia.
  simpl seq. rewrite fmap_cons. f_equal.
  rewrite <- fmap_S_seq, <- !list_fmap_compose.
  apply list_fmap_ext. intros _ k _. simpl. lia.
Qed.

Lemma hash_pairs_cons2 (a b : string) (rest : list string) :
  hash_pairs (a :: b :: rest) = sha256_hexdigest (a ++ b) :: hash_pairs rest.
Proof.
  unfold hash_pairs. simpl length. rewrite range_step2_SS, fmap_cons.
  f_equal. rewrite <- list_fmap_compose.
  apply list_fmap_ext. intros _ k _. simpl.
  reflexivity.
Qed.

Lemma list_ind2 {A} (P : list A -> Prop) :
  P [] -> (forall a, P [a]) -> (forall a b l, P l -> P (a :: b :: l)) ->
  forall l, P l.
Proof.
  intros Hnil Hone Hstep.
  fix IH 1. intros [|a [|b l]].
  - exact Hnil.
  - apply Hone.
  - apply Hstep, IH.
Qed.

(** On a level of even length the index loop reads in range and pairs
    adjacent entries. *)
Lemma hash_pairs_pair_adjacent (hs : list string) :
  Nat.even (length hs) = true -> hash_pairs hs = pair_adjacent hs.
Proof.
  induction hs as [| a | a b l IH] using list_ind2; intros Heven.
  - reflexivity.
  - discriminate.
  - rewrite hash_pairs_cons2. simpl. f_equal. apply IH. exact Heven.
Qed.

Lemma hash_pairs_reads_in_range (hs : list string) (i : nat) :
  Nat.even (length hs) = true -> i ∈ range_step2 (length hs) ->
  (i + 1 < length hs)%nat.
Proof.
  intros Heven Hin. unfold range_step2 in Hin.
  apply list_elem_of_fmap in Hin as (k & -> & Hk).
  apply elem_of_seq in Hk.
  apply Nat.even_spec in Heven as [m Hm]. rewrite Hm in *.
  replace (2 * m + 1)%nat with (1 + m * 2)%nat in Hk by lia.
  rewrite Nat.div_add in Hk by lia. simpl in Hk. lia.
Qed.

Lemma pad_odd_duplicate_last (hs : list string) :
  pad_odd hs = duplicate_last_if_odd hs.
Proof.
  unfold pad_odd, duplicate_last_if_odd.
  destruct hs as [|a l] using rev_ind; [reflexivity|].
  rewrite last_snoc, List.last_last. reflexivity.
Qed.

Lemma pad_odd_even (hs : list string) : Nat.even (length (pad_odd hs)) = true.
Proof.
  unfold pad_odd. destruct (Nat.odd (length hs)) eqn:Hodd.
  - rewrite length_app. simpl. rewrite Nat.add_1_r, Nat.even_succ. exact Hodd.
  - rewrite <- Nat.negb_odd, Hodd. reflexivity.
Qed.

Lemma level_step (hs : list string) :
  hash_pairs (pad_odd hs) = pair_adjacent (duplicate_last_if_odd hs).
Proof.
  rewrite hash_pairs_pair_adjacent by apply pad_odd_even.
  by rewrite pad_odd_duplicate_last.
Qed.

Lemma merkle_loop_step (hs : list string) :
  merkle_loop hs =
  if decide (1 < length hs)%nat then merkle_loop (hash_pairs (pad_odd hs)) else hs.
Proof.
  rewrite merkle_loop_equation_1. unfold merkle_loop_clause_1.
  destruct (decide (1 < length hs)%nat); reflexivity.
Qed.

Lemma length_level (hs : list string) :
  (1 < length hs)%nat ->
  (0 < length (hash_pairs (pad_odd hs)) < length hs)%nat.
Proof.
  intros Hlen. unfold hash_pairs, range_step2, pad_odd.
  rewrite !length_fmap, length_seq.
  destruct (Nat.odd (length hs)) eqn:Hodd.
  - rewrite length_app. cbn [length]. split.
    + apply Nat.div_str_pos. lia.
    + apply Nat.Div0.div_lt_upper_bound.
      destruct (length hs) as [|[|[|n]]]; try lia; discriminate.
  - split.
    + apply Nat.div_str_pos. lia.
    + apply Nat.Div0.div_lt_upper_bound. lia.
Qed.

(** The loop ends with one hash, the root of the reference reduction. *)
Lemma merkle_loop_reduces (hs : list string) :
  hs <> [] -> exists root, merkle_loop hs = [root] /\ reduces_to_root hs root.
Proof.
  remember (length hs) as n eqn:Hn. revert hs Hn.
  induction n as [n IH] using lt_wf_ind. intros hs -> Hne.
  rewrite merkle_loop_step.
  destruct (decide (1 < length hs)%nat) as [Hlen|Hlen].
  - destruct (length_level hs Hlen) as [Hpos Hlt].
    destruct (IH _ Hlt (hash_pairs (pad_odd hs)) eq_refl) as (root & Hloop & Hred).
    { intros Heq. rewrite Heq in Hpos. simpl in Hpos. lia. }
    exists root. split; [exact Hloop|].
    apply next_level; [exact Hlen|]. by rewrite <- level_step.
  - destruct hs as [|h [|h' hs]]; [done| |simpl in Hlen; lia].
    exists h. split; [reflexivity|constructor].
Qed.

Lemma reduces_to_root_loop (hs : list string) (root : string) :
  reduces_to_root hs root -> merkle_loop hs = [root].
Proof.
  induction 1 as [root | level root Hlen Hred IH].
  - by rewrite merkle_loop_step.
  - rewrite merkle_loop_step. destruct (decide (1 < length level)%nat); [|lia].
    by rewrite level_step.
Qed.

(** C8: [calculate_merkle_root] computes the Merkle root of the
    specification: the sentinel "0" for the empty sequence, and otherwise
    the one hash left after reducing the transactions' content hashes level
    by level, the last hash of an odd level being paired with itself. *)
Theorem calculate_merkle_root_is_reference (txs : list Transaction) (root : string) :
  merkle_root_spec txs root <-> calculate_merkle_root txs = root.
Proof.
  split.
  - intros [|txs' root' Hne Hred]; [reflexivity|].
    unfold calculate_merkle_root.
    rewrite (reduces_to_root_loop _ _ Hred). by destruct txs'.
  - intros <-. destruct txs as [|tx txs]; [constructor|].
    apply merkle_root_leaves; [done|].
    destruct (merkle_loop_reduces (Transaction_calculate_hash <$> tx :: txs))
      as (root & Hloop & Hred); [done|].
    unfold calculate_merkle_root. by rewrite Hloop.
Qed.

End MerkleFacts.

(** ** Balances and admission to the mempool *)

Section AdmissionFacts.
Context `{Runtime}.

Lemma credit_lookup (utxo : gmap string float) (tx : Transaction) (address : string) :
  credit utxo tx !! address = credited address (utxo !! address) tx.
Proof.
  unfold credit, credited.
  destruct (String.eqb_spec (recipient tx) address) as [<-|Hne].
  - rewrite lookup_insert_eq. f_equal.
    destruct (decide (is_Some (utxo !! recipient tx))) as [[v Hv]|Hnone].
    + reflexivity.
    + rewrite lookup_insert_eq. apply eq_None_not_Some in Hnone.
      by rewrite Hnone.
  - rewrite lookup_insert_ne by done.
    destruct (decide (is_Some (utxo !! recipient tx))); [done|].
    by rewrite lookup_insert_ne.
Qed.

Lemma credit_block_lookup (txs : list Transaction) (utxo : gmap string float)
    (address : string) :
  foldl credit utxo txs !! address = foldl (credited address) (utxo !! address) txs.
Proof.
  revert utxo. induction txs as [|tx txs IH]; intros utxo; [done|].
  simpl. by rewrite IH, credit_lookup.
Qed.

(** A rebuilt [utxo_set] holds, for each address, the amounts it received
    and nothing else. *)
Lemma update_utxo_set_received_only (self : Blockchain) (address : string) :
  utxo_set (update_utxo_set self) !! address = received_only (chain self) address.
Proof.
  unfold update_utxo_set, received_only. simpl.
  change (@None float) with ((∅ : gmap string float) !! address).
  generalize (∅ : gmap string float).
  induction (chain self) as [|b bs IH]; intros utxo; [done|].
  simpl. by rewrite IH, credit_block_lookup.
Qed.

Lemma get_balance_reads (s1 s2 : Blockchain) (address : string) :
  chain s1 = chain s2 -> pending_transactions s1 = pending_transactions s2 ->
  get_balance s1 address = get_balance s2 address.
Proof. unfold get_balance. by intros -> ->. Qed.

Lemma is_valid_transaction_reads (s1 s2 : Blockchain) (tx : Transaction) :
  chain s1 = chain s2 -> pending_transactions s1 = pending_transactions s2 ->
  is_valid_transaction s1 tx = is_valid_transaction s2 tx.
Proof.
  intros Hc Hp. unfold is_valid_transaction.
  by rewrite (get_balance_reads s1 s2 _ Hc Hp), Hp.
Qed.

(** C10: two ledgers with the same chain and the same pending transactions
    give every address the same balance, judge every transaction alike and
    admit the same submissions, whatever their [utxo_set] holds; and a
    rebuilt [utxo_set] only adds up the amounts an address received. *)
Theorem utxo_set_never_influences (s1 s2 : Blockchain) :
  chain s1 = chain s2 ->
  pending_transactions s1 = pending_transactions s2 ->
  (forall address, get_balance s1 address = get_balance s2 address) /\
  (forall tx, is_valid_transaction s1 tx = is_valid_transaction s2 tx) /\
  (forall sender recipient amount wallet now_seconds now,
     let r1 := add_transaction s1 sender recipient amount wallet now_seconds now in
     let r2 := add_transaction s2 sender recipient amount wallet now_seconds now in
     r1.1 = r2.1 /\ chain r1.2 = chain r2.2 /\
     pending_transactions r1.2 = pending_transactions r2.2) /\
  (forall address,
     utxo_set (update_utxo_set s1) !! address = received_only (chain s1) address).
Proof.
  intros Hc Hp. split; [|split; [|split]].
  - intros address. by apply get_balance_reads.
  - intros tx. by apply is_valid_transaction_reads.
  - intros sender recipient amount wallet now_seconds now. simpl.
    unfold add_transaction.
    rewrite (get_balance_reads s1 s2 _ Hc Hp).
    destruct (negb (sender =? "Genesis")%string && _); [done|].
    destruct (negb (verify_signature _ _ _)); [done|].
    rewrite (is_valid_transaction_reads s1 s2 _ Hc Hp).
    destruct (negb (is_valid_transaction _ _)); [done|].
    simpl. by rewrite Hp.
  - intros address. apply update_utxo_set_received_only.
Qed.

(** C5: a call of [add_transaction] that returns [False] stopped at one of
    the three checks and left the ledger as it was. *)
Theorem add_transaction_failure_unchanged (self : Blockchain)
    (sender recipient : string) (amount : float) (wallet : Wallet)
    (now_seconds : Z) (now : float) :
  let r := add_transaction self sender recipient amount wallet now_seconds now in
  returned r.1 = false ->
  r.2 = self /\
  (r.1 = InsufficientBalance \/ r.1 = InvalidSignature \/ r.1 = DoubleSpendDetected).
Proof.
  simpl. unfold add_transaction.
  destruct (negb (sender =? "Genesis")%string && _); [auto|].
  destruct (negb (verify_signature _ _ _)); [auto|].
  destruct (negb (is_valid_transaction _ _)); [auto|].
  simpl. discriminate.
Qed.

(** On success the ledger changes by one transaction at the end of the
    mempool. *)
Lemma add_transaction_success (self : Blockchain)
    (sender recipient : string) (amount : float) (wallet : Wallet)
    (now_seconds : Z) (now : float) :
  let r := add_transaction self sender recipient amount wallet now_seconds now in
  returned r.1 = true ->
  exists tx,
    r.2 = with_pending_transactions (pending_transactions self ++ [tx])%list self.
Proof.
  simpl. unfold add_transaction.
  destruct (negb (sender =? "Genesis")%string && _); [discriminate|].
  destruct (negb (verify_signature _ _ _)); [discriminate|].
  destruct (negb (is_valid_transaction _ _)); [discriminate|].
  simpl. eauto.
Qed.

Lemma no_conflicting_pending_false (transaction pending_tx : Transaction)
    (pending : list Transaction) :
  pending_tx ∈ pending ->
  sender pending_tx = sender transaction ->
  transaction_id pending_tx <> transaction_id transaction ->
  no_conflicting_pending transaction pending = false.
Proof.
  intros Hin Hsender Hid.
  induction pending as [|p rest IH]; [by apply elem_of_nil in Hin|].
  simpl. apply elem_of_cons in Hin as [<-|Hin].
  - apply String.eqb_eq in Hsender. apply String.eqb_neq in Hid.
    by rewrite Hsender, Hid.
  - rewrite (IH Hin). by destruct (_ && _).
Qed.


(** A submission from "Genesis" passes the balance check and the pending
    check whatever the ledger holds: only the signature is looked at. *)
Lemma genesis_submission_accepted (self : Blockchain) (recipient0 : string)
    (amount0 : float) (wallet : Wallet) (now_seconds : Z) (now : float) :
  (forall message, public_key_verify wallet (private_key_sign wallet message) message = true) ->
  (add_transaction self "Genesis" recipient0 amount0 wallet now_seconds now).1
  = TransactionAdded.
Proof.
  intros Hverify. unfold add_transaction. simpl.
  unfold verify_signature, sign_transaction. simpl.
  by rewrite Hverify.
Qed.

End AdmissionFacts.

(** ** Mining *)

Section MiningFacts.
Context `{Runtime}.

Lemma string_repeat_zero_S (n : nat) :
  string_repeat "0" (S n) = String "0"%char (string_repeat "0" n).
Proof. reflexivity. Qed.

Lemma get_string_repeat_zero (n i : nat) :
  (i < n)%nat -> String.get i (string_repeat "0" n) = Some "0"%char.
Proof.
  revert i. induction n as [|n IH]; intros i Hi; [lia|].
  rewrite string_repeat_zero_S.
  destruct i as [|i]; [reflexivity|]. simpl. apply IH. lia.
Qed.

Lemma length_string_repeat_zero (n : nat) :
  String.length (string_repeat "0" n) = n.
Proof.
  induction n as [|n IH]; [done|].
  rewrite string_repeat_zero_S. simpl. by rewrite IH.
Qed.

Lemma prefix_get (p s : string) (i : nat) :
  String.prefix p s = true -> (i < String.length p)%nat ->
  String.get i s = String.get i p.
Proof.
  revert s i. induction p as [|c p IH]; intros s i Hpre Hi; [simpl in Hi; lia|].
  destruct s as [|c' s]; [discriminate|]. simpl in Hpre.
  destruct (Ascii.ascii_dec c c') as [<-|]; [|discriminate].
  destruct i as [|i]; [reflexivity|]. simpl. apply IH; [done|simpl in Hi; lia].
Qed.

Lemma prefix_split (p s : string) :
  String.prefix p s = true -> exists rest, s = p ++ rest.
Proof.
  revert s. induction p as [|c p IH]; intros s Hpre; [by exists s|].
  destruct s as [|c' s]; [discriminate|]. simpl in Hpre.
  destruct (Ascii.ascii_dec c c') as [<-|]; [|discriminate].
  destruct (IH s Hpre) as [rest ->]. by exists rest.
Qed.

Lemma startswith_zeros (s : string) (n : Z) :
  startswith s (zeros n) = true -> leading_zeros_at_least n s.
Proof.
  intros Hpre i Hi. unfold startswith, zeros in Hpre.
  rewrite (prefix_get _ _ i Hpre).
  - apply get_string_repeat_zero. lia.
  - rewrite length_string_repeat_zero. lia.
Qed.

(** What the search returns: the candidate with some later nonce, whose
    content hash meets the target. *)
Lemma proof_of_work_found (fuel : nat) (target : string) (candidate found : Block) :
  proof_of_work fuel target candidate = Some found ->
  startswith (Block_calculate_hash found) target = true /\
  nonce candidate < nonce found /\
  found = with_nonce (nonce found) candidate.
Proof.
  revert candidate. induction fuel as [|fuel IH]; intros candidate; [discriminate|].
  simpl. intros Hrest.
  destruct (startswith (Block_calculate_hash (with_nonce _ candidate)) target)
    eqn:Hmeets.
  - injection Hrest as <-. split; [exact Hmeets|]. simpl. split; [lia|reflexivity].
  - destruct (IH _ Hrest) as (Hhash & Hnonce & Hfound).
    split; [exact Hhash|]. simpl in Hnonce. split; [lia|].
    rewrite Hfound. reflexivity.
Qed.

(** The search ends as soon as the fuel reaches a nonce that meets the
    target, and returns the first such nonce. *)
Lemma proof_of_work_terminates (k : nat) (target : string) (candidate : Block) :
  startswith
    (Block_calculate_hash (with_nonce (nonce candidate + Z.of_nat (S k)) candidate))
    target = true ->
  forall fuel, (S k <= fuel)%nat ->
  exists found, proof_of_work fuel target candidate = Some found /\
                nonce found <= nonce candidate + Z.of_nat (S k).
Proof.
  revert candidate. induction k as [|k IH]; intros candidate Hmeets fuel Hfuel.
  - destruct fuel as [|fuel]; [lia|]. simpl.
    replace (nonce candidate + Z.of_nat 1) with (nonce candidate + 1) in Hmeets by lia.
    rewrite Hmeets. eexists. split; [reflexivity|]. simpl. lia.
  - destruct fuel as [|fuel]; [lia|]. simpl.
    destruct (startswith
                (Block_calculate_hash (with_nonce (nonce candidate + 1) candidate))
                target) eqn:Hfirst.
    + eexists. split; [reflexivity|]. simpl. lia.
    + destruct (IH (with_nonce (nonce candidate + 1) candidate)) with (fuel := fuel)
        as (found & Hfound & Hle).
      * simpl. unfold with_nonce in *. simpl in *.
        replace (nonce candidate + 1 + Z.of_nat (S k))
          with (nonce candidate + Z.of_nat (S (S k))) by lia.
        exact Hmeets.
      * lia.
      * exists found. split; [exact Hfound|]. simpl in Hle. lia.
Qed.

(** The shape of a successful call of [mine_block]. *)
Lemma mine_block_mined (fuel : nat) (self self' : Blockchain) (miner_address : string)
    (clock : MineClock) (b : Block) :
  mine_block fuel self miner_address clock = (Mined b, self') ->
  exists previous_block found,
    last (chain self) = Some previous_block /\
    pending_transactions self <> [] /\
    proof_of_work fuel (zeros (bc_difficulty self))
      (mkBlock (index previous_block + 1) (new_timestamp clock)
         (pending_transactions self ++
            [mkTransaction "System" miner_address (mining_reward self)
               ("reward_" ++ str_of_int (index previous_block + 1) ++ "_"
                  ++ str_of_int (reward_id_seconds clock))
               (reward_timestamp clock) None])%list
         (Block_calculate_hash previous_block) 0 (bc_difficulty self)
         (calculate_merkle_root
            (pending_transactions self ++
               [mkTransaction "System" miner_address (mining_reward self)
                  ("reward_" ++ str_of_int (index previous_block + 1) ++ "_"
                     ++ str_of_int (reward_id_seconds clock))
                  (reward_timestamp clock) None])%list) "") = Some found /\
    b = with_hash (Block_calculate_hash found) found /\
    self' =
      adjust_difficulty (adjust_time clock)
        (update_utxo_set
           (with_pending_transactions []
              (with_chain (chain self ++ [b])%list self))).
Proof.
  unfold mine_block, get_latest_block.
  destruct (pending_transactions self) as [|tx txs] eqn:Hpending; [discriminate|].
  destruct (last (chain self)) as [previous_block|]; [|discriminate].
  destruct (proof_of_work _ _ _) as [found|] eqn:Hpow; [|discriminate].
  intros [= <- <-]. exists previous_block, found. by rewrite Hpow.
Qed.

(** C3: the block a call of [mine_block] returns carries its own content
    hash, and that hash starts with as many characters '0' as the
    difficulty the block was mined at, which is the difficulty of the ledger
    when the call was made. *)
Theorem mined_block_meets_difficulty (fuel : nat) (self self' : Blockchain)
    (miner_address : string) (clock : MineClock) (b : Block) :
  mine_block fuel self miner_address clock = (Mined b, self') ->
  hash b = Block_calculate_hash b /\
  difficulty b = bc_difficulty self /\
  startswith (hash b) (zeros (difficulty b)) = true /\
  leading_zeros_at_least (difficulty b) (hash b).
Proof.
  intros Hmine.
  destruct (mine_block_mined _ _ _ _ _ _ Hmine)
    as (previous_block & found & _ & _ & Hpow & -> & _).
  destruct (proof_of_work_found _ _ _ _ Hpow) as (Hmeets & _ & Hfound).
  assert (Hdiff : difficulty found = bc_difficulty self) by (by rewrite Hfound).
  assert (Hstart :
    startswith (Block_calculate_hash found) (zeros (difficulty found)) = true)
    by (by rewrite Hdiff).
  simpl. repeat split; try done.
  by apply startswith_zeros.
Qed.

(** The link of a mined block is the recomputed content hash of the head. *)
Lemma mined_block_previous_hash (fuel : nat) (self self' : Blockchain)
    (miner_address : string) (clock : MineClock) (b : Block) :
  mine_block fuel self miner_address clock = (Mined b, self') ->
  exists head, last (chain self) = Some head /\
               previous_hash b = Block_calculate_hash head /\
               chain self' = (chain self ++ [b])%list.
Proof.
  intros Hmine.
  destruct (mine_block_mined _ _ _ _ _ _ Hmine)
    as (previous_block & found & Hlast & _ & Hpow & -> & ->).
  destruct (proof_of_work_found _ _ _ _ Hpow) as (_ & _ & Hfound).
  exists previous_block. split; [exact Hlast|]. split.
  - by rewrite Hfound.
  - unfold adjust_difficulty.
    destruct (_ <? 2)%nat; [done|].
    destruct (0 <? _)%float; [|done].
    destruct (_ <? _)%float; [done|]. by destruct (_ <? _)%float.
Qed.

(** X21: when the head of the chain stores its own content hash, the block
    [mine_block] returns names the head's stored hash as its previous
    hash. *)
Lemma mined_block_links_to_honest_head (fuel : nat) (self self' : Blockchain)
    (miner_address : string) (clock : MineClock) (b head : Block) :
  mine_block fuel self miner_address clock = (Mined b, self') ->
  last (chain self) = Some head ->
  hash head = Block_calculate_hash head ->
  previous_hash b = hash head.
Proof.
  intros Hmine Hlast Hhead.
  destruct (mined_block_previous_hash _ _ _ _ _ _ Hmine) as (head' & Hlast' & Hprev & _).
  rewrite Hlast in Hlast'. injection Hlast' as <-. by rewrite Hhead.
Qed.

(** When it does not, the new block does not link to the stored hash, and
    the ledger's own [is_block_valid] refuses it as a successor of that
    head. *)
Lemma mined_block_misses_forged_head (fuel : nat) (self self' : Blockchain)
    (miner_address : string) (clock : MineClock) (b head : Block) :
  mine_block fuel self miner_address clock = (Mined b, self') ->
  last (chain self) = Some head ->
  hash head <> Block_calculate_hash head ->
  previous_hash b <> hash head /\ is_block_valid self b = Return false.
Proof.
  intros Hmine Hlast Hhead.
  destruct (mined_block_previous_hash _ _ _ _ _ _ Hmine) as (head' & Hlast' & Hprev & _).
  rewrite Hlast in Hlast'. injection Hlast' as <-.
  assert (Hne : previous_hash b <> hash head) by (rewrite Hprev; congruence).
  split; [exact Hne|].
  unfold is_block_valid, get_latest_block. rewrite Hlast. simpl.
  apply String.eqb_neq in Hne. by rewrite Hne.
Qed.

(** [adjust_difficulty] on a chain of two blocks or more. *)
Lemma adjust_difficulty_rule (current_time : float) (self : Blockchain) :
  (2 <= length (chain self))%nat ->
  last_mining_time (adjust_difficulty current_time self) = current_time /\
  bc_difficulty (adjust_difficulty current_time self) =
    if (0 <? last_mining_time self)%float
    then difficulty_rule (current_time - last_mining_time self)%float
           (target_block_time self) (bc_difficulty self)
    else bc_difficulty self.
Proof.
  intros Hlen. unfold adjust_difficulty, difficulty_rule.
  apply Nat.ltb_ge in Hlen. rewrite Hlen.
  destruct (0 <? last_mining_time self)%float; [|done].
  destruct (_ <? _ * 0.5)%float; [done|].
  by destruct (_ * 2 <? _)%float.
Qed.

(** C7, as the code has it: a successful call of [mine_block] records the
    time of its adjustment check; it applies the adjustment rule to the time
    elapsed since the previous check when one was recorded
    ([last_mining_time > 0]), and leaves the difficulty as it was
    otherwise. *)
Theorem difficulty_adjusted_after_mine (fuel : nat) (self self' : Blockchain)
    (miner_address : string) (clock : MineClock) (b : Block) :
  mine_block fuel self miner_address clock = (Mined b, self') ->
  last_mining_time self' = adjust_time clock /\
  bc_difficulty self' =
    if (0 <? last_mining_time self)%float
    then difficulty_rule (adjust_time clock - last_mining_time self)%float
           (target_block_time self) (bc_difficulty self)
    else bc_difficulty self.
Proof.
  intros Hmine.
  destruct (mine_block_mined _ _ _ _ _ _ Hmine)
    as (previous_block & found & Hlast & _ & _ & _ & ->).
  set (appended :=
         update_utxo_set
           (with_pending_transactions [] (with_chain (chain self ++ [b])%list self))).
  assert (Hlen : (2 <= length (chain appended))%nat).
  { subst appended. simpl. rewrite length_app. simpl.
    destruct (chain self); [discriminate|simpl; lia]. }
  destruct (adjust_difficulty_rule (adjust_time clock) appended Hlen) as [Htime Hdiff].
  split; [exact Htime|]. rewrite Hdiff. reflexivity.
Qed.

(** The first block a new ledger mines never moves the difficulty,
    whatever the clock reads. *)
Lemma first_mine_keeps_difficulty (fuel : nat) (self self' : Blockchain)
    (miner_address : string) (clock : MineClock) (b : Block) :
  last_mining_time self = 0%float ->
  mine_block fuel self miner_address clock = (Mined b, self') ->
  bc_difficulty self' = bc_difficulty self.
Proof.
  intros Hnever Hmine.
  destruct (mine_block_mined _ _ _ _ _ _ Hmine) as (_ & _ & _ & _ & _ & _ & ->).
  unfold adjust_difficulty. simpl. rewrite Hnever.
  by destruct (_ <? 2)%nat.
Qed.

(** X22: with a mempool that is not empty and a chain that has a head, the
    nonce search of [mine_block] ends and a block is returned as soon as
    the nonces tried reach one whose content hash meets the target. *)
Lemma mine_block_returns (k fuel : nat) (self : Blockchain) (miner_address : string)
    (clock : MineClock) (head : Block) :
  pending_transactions self <> [] ->
  last (chain self) = Some head ->
  (let all_transactions :=
     (pending_transactions self ++
        [mkTransaction "System" miner_address (mining_reward self)
           ("reward_" ++ str_of_int (index head + 1) ++ "_"
              ++ str_of_int (reward_id_seconds clock))
           (reward_timestamp clock) None])%list in
   startswith
     (Block_calculate_hash
        (mkBlock (index head + 1) (new_timestamp clock) all_transactions
           (Block_calculate_hash head) (Z.of_nat (S k)) (bc_difficulty self)
           (calculate_merkle_root all_transactions) ""))
     (zeros (bc_difficulty self)) = true) ->
  (S k <= fuel)%nat ->
  exists b self', mine_block fuel self miner_address clock = (Mined b, self').
Proof.
  intros Hpending Hlast Hmeets Hfuel. unfold mine_block, get_latest_block.
  rewrite Hlast. destruct (pending_transactions self) as [|tx txs] eqn:Hp; [done|].
  match goal with
  | |- context [proof_of_work fuel ?t ?c] =>
      destruct (proof_of_work_terminates k t c) with (fuel := fuel)
        as (found & -> & _); [exact Hmeets|exact Hfuel|]
  end.
  eauto.
Qed.

End MiningFacts.

(** ** Chain validation *)

Section ValidatorFacts.
Context `{Runtime}.


Lemma check_block_true (chain : list Block) (i : nat) (current previous : Block) :
  chain !! i = Some current ->
  chain !! (i - 1)%nat = Some previous ->
  check_block chain i = true <->
  previous_hash current = hash previous /\
  startswith (hash current) (zeros (difficulty current)) = true /\
  Block_calculate_hash current = hash current.
Proof.
  intros Hi Hprev. unfold check_block. rewrite Hi, Hprev.
  destruct (String.eqb_spec (Block_calculate_hash current) (hash current));
    destruct (String.eqb_spec (previous_hash current) (hash previous));
    destruct (startswith (hash current) (zeros (difficulty current)));
    simpl; intuition congruence.
Qed.

(** [is_chain_valid] decides the validity of the specification. *)
Lemma is_chain_valid_spec (self : Blockchain) :
  is_chain_valid self = true <-> chain_valid_spec (chain self).
Proof.
  unfold is_chain_valid, chain_valid_spec. rewrite forallb_forall. split.
  - intros Hall i current previous Hge Hi Hprev.
    apply (check_block_true (chain self) i); [done..|].
    apply Hall, in_seq. apply lookup_lt_Some in Hi. lia.
  - intros Hspec i Hin. apply in_seq in Hin.
    destruct (lookup_lt_is_Some_2 (chain self) i) as [current Hi]; [lia|].
    destruct (lookup_lt_is_Some_2 (chain self) (i - 1)) as [previous Hprev]; [lia|].
    apply (check_block_true (chain self) i current previous); [done..|].
    apply (Hspec i); [lia|done..].
Qed.

Lemma is_chain_valid_false_at (self : Blockchain) (i : nat) :
  (1 <= i < length (chain self))%nat ->
  check_block (chain self) i = false ->
  is_chain_valid self = false.
Proof.
  intros Hi Hcheck. apply not_true_is_false. intros Hvalid.
  unfold is_chain_valid in Hvalid. rewrite forallb_forall in Hvalid.
  rewrite Hvalid in Hcheck; [discriminate|]. apply in_seq. lia.
Qed.

(** A block after the genesis block that does not store its own content
    hash fails the first check. *)
Lemma stale_hash_detected (self : Blockchain) (i : nat) (b' : Block) :
  (1 <= i < length (chain self))%nat ->
  Block_calculate_hash b' <> hash b' ->
  is_chain_valid (with_chain (<[i := b']> (chain self)) self) = false.
Proof.
  intros Hi Hstale. apply (is_chain_valid_false_at _ i); simpl.
  - by rewrite length_insert.
  - unfold check_block. rewrite list_lookup_insert_eq by lia.
    rewrite list_lookup_insert_ne by lia.
    destruct (lookup_lt_is_Some_2 (chain self) (i - 1)) as [previous ->]; [lia|].
    apply String.eqb_neq in Hstale. by rewrite Hstale.
Qed.

(** The signature of a transaction is no part of what is hashed. *)
Lemma signature_not_hashed (sig : option string) (tx : Transaction) :
  Transaction_to_dict (with_signature sig tx) = Transaction_to_dict tx.
Proof. reflexivity. Qed.



(** Nor is the stored hash of a block. *)
Lemma stored_hash_not_hashed (h : string) (b : Block) :
  block_data (with_hash h b) = block_data b.
Proof. reflexivity. Qed.







End ValidatorFacts.

(** ** Chain adoption *)

Lemma linked_lookup (previous : Block) (rest : list Block) :
  linked previous rest <->
  forall (i : nat) (current before : Block),
    (1 <= i)%nat ->
    (previous :: rest) !! i = Some current ->
    (previous :: rest) !! (i - 1)%nat = Some before ->
    previous_hash current = hash before /\ index current = index before + 1.
Proof.
  revert previous. induction rest as [|b rest IH]; intros previous.
  - split; [|done]. intros _ [|[|i]] current before Hge Hi Hb; simpl in *; try lia;
      discriminate.
  - simpl. rewrite IH. split.
    + intros (Hp & Hi & Hrest) [|[|i]] current before Hge Hcur Hbef; [lia| |].
      * simpl in *. injection Hcur as <-. by injection Hbef as <-.
      * apply (Hrest (S i)); [lia|exact Hcur|].
        simpl in *. by rewrite Nat.sub_0_r in *.
    + intros Hall. split; [|split].
      * by apply (Hall 1%nat b previous).
      * by apply (Hall 1%nat b previous).
      * intros i current before Hge Hcur Hbef.
        apply (Hall (S i)); [lia|exact Hcur|].
        destruct i as [|i]; [lia|]. simpl in *. by rewrite Nat.sub_0_r in *.
Qed.

Lemma transaction_of_dict_asdict (tx : Transaction) :
  transaction_of_dict (tx_asdict tx) = Return tx.
Proof. by destruct tx. Qed.

#[local] Arguments block_of_dict : simpl never.

Lemma transactions_of_dicts_asdict (txs : list Transaction) :
  transactions_of_dicts (tx_asdict <$> txs) = Return txs.
Proof.
  induction txs as [|tx txs IH]; [done|].
  simpl. change (list_fmap Transaction TxDict tx_asdict txs) with (tx_asdict <$> txs).
  rewrite IH. by destruct tx.
Qed.

(** A block sent by [send_chain] is rebuilt as it was. *)
Lemma block_of_dict_to_wire (b : Block) :
  block_of_dict (block_to_wire b) = Return b.
Proof.
  unfold block_of_dict, block_to_wire. cbn [bd_transactions subscript mbind outcome_bind].
  rewrite transactions_of_dicts_asdict. by destruct b.
Qed.

Lemma validate_links_wire (previous : Block) (rest : list Block) :
  exists verdict,
    validate_links (block_to_wire previous) (block_to_wire <$> rest) = Return verdict /\
    (verdict = true <-> linked previous rest).
Proof.
  revert previous. induction rest as [|b rest IH]; intros previous.
  - by exists true.
  - simpl.
    destruct (String.eqb_spec (previous_hash b) (hash previous)) as [Hp|Hp]; simpl.
    + destruct (Z.eqb_spec (index b) (index previous + 1)) as [Hi|Hi]; simpl.
      * destruct (IH b) as (verdict & Hv & Hverdict). exists verdict.
        change (list_fmap Block BlockDict block_to_wire rest)
          with (block_to_wire <$> rest).
        split; [exact Hv|]. rewrite Hverdict. tauto.
      * exists false. split; [done|]. split; [done|]. tauto.
    + exists false. split; [done|]. split; [done|]. tauto.
Qed.

Lemma validate_received_chain_wire (received : list Block) :
  exists verdict,
    validate_received_chain (block_to_wire <$> received) = Return verdict /\
    (verdict = true <-> structurally_sound received).
Proof.
  unfold structurally_sound. destruct received as [|first rest].
  - exists false. split; [done|]. split; [done|]. by intros [(first & ? & _) _].
  - simpl.
    destruct (Z.eqb_spec (index first) 0) as [Hi|Hi]; simpl.
    + destruct (String.eqb_spec (previous_hash first) "0") as [Hp|Hp]; simpl.
      * destruct (validate_links_wire first rest) as (verdict & Hv & Hverdict).
        exists verdict.
        change (list_fmap Block BlockDict block_to_wire rest)
          with (block_to_wire <$> rest).
        split; [exact Hv|]. rewrite Hverdict, linked_lookup.
        split; [|tauto]. intros Hall. split; [by exists first|done].
      * exists false. split; [done|]. split; [done|].
        intros [(first' & [= <-] & _ & ?) _]. done.
    + exists false. split; [done|]. split; [done|].
      intros [(first' & [= <-] & ? & _) _]. done.
Qed.

Section SynchronisationFacts.
Context `{Runtime}.

Lemma append_received_wire (received : list Block) (self : Blockchain) :
  append_received self (block_to_wire <$> received)
  = (Return (), with_chain (chain self ++ received)%list self).
Proof.
  revert self. induction received as [|b received IH]; intros self.
  - simpl. rewrite app_nil_r. by destruct self.
  - simpl. rewrite block_of_dict_to_wire, IH. simpl.
    by rewrite <- app_assoc.
Qed.

(** X23: on a chain of complete block dictionaries, as [send_chain] builds
    them, [handle_chain_response] returns normally; when the chain is
    strictly longer than the local one and structurally sound it becomes the
    local chain, and the rest of the ledger is kept but for the rebuilt
    [utxo_set]; when either condition fails the ledger is left as it was. *)
Theorem longest_sound_chain_adopted (self : Blockchain) (received : list Block) :
  let r := handle_chain_response self (block_to_wire <$> received) in
  r.1 = Return () /\
  ((length (chain self) < length received)%nat /\ structurally_sound received ->
   chain r.2 = received /\ r.2 = update_utxo_set (with_chain received self)) /\
  (~ ((length (chain self) < length received)%nat /\ structurally_sound received) ->
   r.2 = self /\ chain r.2 = chain self).
Proof.
  simpl. unfold handle_chain_response. rewrite length_fmap.
  destruct (Nat.ltb_spec (length (chain self)) (length received)) as [Hlen|Hlen].
  - destruct (validate_received_chain_wire received) as (verdict & -> & Hverdict).
    destruct verdict.
    + rewrite append_received_wire. simpl. split; [done|]. split; [done|].
      intros Hnot. exfalso. apply Hnot. split; [done|]. by apply Hverdict.
    + simpl. split; [done|]. split; [|done].
      intros [_ Hsound]. apply Hverdict in Hsound. discriminate.
  - simpl. split; [done|]. split; [|done]. intros [Hlt _]. lia.
Qed.

(** *** The genesis invariant *)

(** The chain after [handle_chain_response] on complete dictionaries is the
    local chain or a structurally sound one. *)
Lemma chain_handle_chain_response_wire (self : Blockchain) (received : list Block) :
  chain (handle_chain_response self (block_to_wire <$> received)).2 = chain self \/
  (structurally_sound received /\
   chain (handle_chain_response self (block_to_wire <$> received)).2 = received).
Proof.
  unfold handle_chain_response.
  destruct (_ <? _)%nat; [|by left].
  destruct (validate_received_chain_wire received) as (verdict & -> & Hverdict).
  destruct verdict; [|by left].
  right. split; [by apply Hverdict|].
  by rewrite append_received_wire.
Qed.

Lemma genesis_shaped_append (self : Blockchain) (tail : list Block) (self' : Blockchain) :
  genesis_shaped self -> chain self' = (chain self ++ tail)%list ->
  genesis_shaped self'.
Proof.
  intros (first & Hfirst & Hshape) Hchain. exists first. split; [|done].
  rewrite Hchain. by apply lookup_app_l_Some.
Qed.

Lemma chain_adjust_difficulty (t : float) (self : Blockchain) :
  chain (adjust_difficulty t self) = chain self.
Proof.
  unfold adjust_difficulty. destruct (_ <? 2)%nat; [done|].
  destruct (0 <? _)%float; [|done].
  destruct (_ <? _)%float; [done|]. by destruct (_ <? _)%float.
Qed.

Lemma chain_add_transaction (self : Blockchain) (sender0 recipient0 : string)
    (amount0 : float) (wallet : Wallet) (now_seconds : Z) (now : float) :
  chain (add_transaction self sender0 recipient0 amount0 wallet now_seconds now).2
  = chain self.
Proof.
  unfold add_transaction.
  destruct (negb (sender0 =? "Genesis")%string && _); [done|].
  destruct (negb (verify_signature _ _ _)); [done|].
  by destruct (negb (is_valid_transaction _ _)).
Qed.

Lemma chain_mine_block (fuel : nat) (self : Blockchain) (miner_address : string)
    (clock : MineClock) :
  exists tail,
    chain (mine_block fuel self miner_address clock).2 = (chain self ++ tail)%list.
Proof.
  unfold mine_block.
  destruct (pending_transactions self); [exists []; by rewrite app_nil_r|].
  destruct (get_latest_block self); [|exists []; by rewrite app_nil_r].
  destruct (proof_of_work _ _ _); [|exists []; by rewrite app_nil_r].
  eexists [_]. cbn [snd]. by rewrite chain_adjust_difficulty.
Qed.

Lemma chain_add_block (self : Blockchain) (block : Block) :
  exists tail, chain (add_block self block).2 = (chain self ++ tail)%list.
Proof.
  unfold add_block.
  destruct (is_block_valid self block) as [[|]|];
    [by exists [block]|exists []; by rewrite app_nil_r..].
Qed.

(** X20: while the chains peers send are made of complete block
    dictionaries, every state a node reaches by submissions, mining,
    [add_block] and [handle_chain_response] has a chain that starts with a
    block of index 0 and previous hash "0". *)
Lemma genesis_invariant_complete (self : Blockchain) :
  reachable_complete self -> genesis_shaped self.
Proof.
  induction 1 as [difficulty now | self self' _ IH Hstep].
  - eexists. by split.
  - destruct Hstep
      as [self sender0 recipient0 amount0 wallet now_seconds now
         | self fuel miner_address clock
         | self block
         | self received].
    + destruct IH as (first & Hfirst & Hshape). exists first.
      by rewrite chain_add_transaction.
    + destruct (chain_mine_block fuel self miner_address clock) as [tail Htail].
      by apply (genesis_shaped_append self tail).
    + destruct (chain_add_block self block) as [tail Htail].
      by apply (genesis_shaped_append self tail).
    + destruct (chain_handle_chain_response_wire self received)
        as [Hsame|[[(first & Hfirst & Hshape) _] Hnew]].
      * destruct IH as (first & Hfirst & Hshape). exists first. by rewrite Hsame.
      * exists first. by rewrite Hnew.
Qed.

End SynchronisationFacts.

(** * Further properties of the ledger *)

Section BalanceFacts.
Context `{Runtime}.

Lemma get_balance_pending_snoc (self : Blockchain) (tx : Transaction) (address : string) :
  get_balance
    (with_pending_transactions (pending_transactions self ++ [tx])%list self) address
  = apply_transaction address (get_balance self address) tx.
Proof. unfold get_balance. simpl. by rewrite foldl_app. Qed.

Lemma apply_transaction_other (address : string) (balance : float) (tx : Transaction) :
  recipient tx <> address -> sender tx <> address ->
  apply_transaction address balance tx = balance.
Proof.
  intros Hr Hs. unfold apply_transaction.
  apply String.eqb_neq in Hr, Hs. by rewrite Hr, Hs.
Qed.

Lemma apply_transaction_recipient (balance : float) (tx : Transaction) :
  sender tx <> recipient tx ->
  apply_transaction (recipient tx) balance tx = (balance + amount tx)%float.
Proof.
  intros Hs. unfold apply_transaction.
  apply String.eqb_neq in Hs. by rewrite String.eqb_refl, Hs.
Qed.

Lemma apply_transaction_sender (balance : float) (tx : Transaction) :
  sender tx <> recipient tx ->
  apply_transaction (sender tx) balance tx = (balance - amount tx)%float.
Proof.
  intros Hs. unfold apply_transaction.
  assert (Hr : recipient tx <> sender tx) by congruence.
  apply String.eqb_neq in Hr. by rewrite Hr, String.eqb_refl.
Qed.

(** The transaction a successful submission leaves at the end of the
    mempool. *)
Lemma add_transaction_added (self self' : Blockchain) (sender0 recipient0 : string)
    (amount0 : float) (wallet : Wallet) (now_seconds : Z) (now : float) :
  add_transaction self sender0 recipient0 amount0 wallet now_seconds now
  = (TransactionAdded, self') ->
  exists tx,
    sender tx = sender0 /\ recipient tx = recipient0 /\ amount tx = amount0 /\
    transaction_id tx = sender0 ++ "_" ++ recipient0 ++ "_" ++ str_of_int now_seconds /\
    timestamp tx = now /\
    self' = with_pending_transactions (pending_transactions self ++ [tx])%list self.
Proof.
  unfold add_transaction.
  destruct (negb (sender0 =? "Genesis")%string && _); [discriminate|].
  destruct (negb (verify_signature _ _ _)); [discriminate|].
  destruct (negb (is_valid_transaction _ _)); [discriminate|].
  intros [= <-]. eexists. by repeat split.
Qed.

(** X1: an admitted transfer moves its amount and nothing else: the
    recipient's balance goes up by the amount, the sender's goes down by
    it, and every other balance stays. *)
Theorem add_transaction_moves_amount (self self' : Blockchain)
    (sender0 recipient0 : string) (amount0 : float) (wallet : Wallet)
    (now_seconds : Z) (now : float) :
  add_transaction self sender0 recipient0 amount0 wallet now_seconds now
  = (TransactionAdded, self') ->
  sender0 <> recipient0 ->
  get_balance self' recipient0 = (get_balance self recipient0 + amount0)%float /\
  get_balance self' sender0 = (get_balance self sender0 - amount0)%float /\
  (forall address, address <> sender0 -> address <> recipient0 ->
     get_balance self' address = get_balance self address).
Proof.
  intros Hadd Hne.
  destruct (add_transaction_added _ _ _ _ _ _ _ _ Hadd)
    as (tx & <- & <- & <- & _ & _ & ->).
  split; [|split].
  - by rewrite get_balance_pending_snoc, apply_transaction_recipient.
  - by rewrite get_balance_pending_snoc, apply_transaction_sender.
  - intros address Hs Hr. rewrite get_balance_pending_snoc.
    apply apply_transaction_other; congruence.
Qed.

Lemma get_balance_mined (self : Blockchain) (b : Block) (reward : Transaction)
    (address : string) :
  transactions b = (pending_transactions self ++ [reward])%list ->
  get_balance (with_pending_transactions [] (with_chain (chain self ++ [b])%list self))
    address
  = apply_transaction address (get_balance self address) reward.
Proof.
  intros Htxs. unfold get_balance. simpl.
  rewrite foldl_app. simpl. by rewrite Htxs, foldl_app.
Qed.

(** X2: a mined block pays the reward and changes no other balance: the
    miner's balance goes up by [mining_reward], that of "System" goes down
    by it, every other address keeps what it had, pending transfers
    included. *)
Theorem mine_block_pays_reward_only (fuel : nat) (self self' : Blockchain)
    (miner_address : string) (clock : MineClock) (b : Block) :
  mine_block fuel self miner_address clock = (Mined b, self') ->
  miner_address <> "System" ->
  get_balance self' miner_address
  = (get_balance self miner_address + mining_reward self)%float /\
  get_balance self' "System" = (get_balance self "System" - mining_reward self)%float /\
  (forall address, address <> miner_address -> address <> "System" ->
     get_balance self' address = get_balance self address).
Proof.
  intros Hmine Hminer.
  destruct (mine_block_mined _ _ _ _ _ _ Hmine)
    as (head & found & _ & _ & Hpow & Hb & ->).
  destruct (proof_of_work_found _ _ _ _ Hpow) as (_ & _ & Hfound).
  set (reward :=
         mkTransaction "System" miner_address (mining_reward self)
           ("reward_" ++ str_of_int (index head + 1) ++ "_"
              ++ str_of_int (reward_id_seconds clock))
           (reward_timestamp clock) None) in *.
  assert (Htxs : transactions b = (pending_transactions self ++ [reward])%list).
  { rewrite Hb, Hfound. reflexivity. }
  assert (Hbal : forall address,
    get_balance
      (adjust_difficulty (adjust_time clock)
         (update_utxo_set
            (with_pending_transactions [] (with_chain (chain self ++ [b])%list self))))
      address
    = apply_transaction address (get_balance self address) reward).
  { intros address. rewrite <- (get_balance_mined self b reward address Htxs).
    apply get_balance_reads; [|unfold adjust_difficulty].
    - by rewrite chain_adjust_difficulty.
    - destruct (_ <? 2)%nat; [done|]. destruct (0 <? _)%float; [|done].
      destruct (_ <? _)%float; [done|]. by destruct (_ <? _)%float. }
  split; [|split].
  - rewrite Hbal. by rewrite (apply_transaction_recipient _ reward).
  - rewrite Hbal. by rewrite (apply_transaction_sender _ reward).
  - intros address Hm Hs. rewrite Hbal.
    apply apply_transaction_other; simpl; congruence.
Qed.

(** X3: what a mined block holds and what mining leaves behind: the block
    takes the next index, carries the pending transactions in their order
    followed by one reward transaction from "System" to the miner, names
    the Merkle root of exactly those transactions, and has a nonce of at
    least 1; the chain grows by that block and the mempool is empty. *)
Theorem mined_block_contents (fuel : nat) (self self' : Blockchain)
    (miner_address : string) (clock : MineClock) (b : Block) :
  mine_block fuel self miner_address clock = (Mined b, self') ->
  exists head reward,
    last (chain self) = Some head /\
    index b = index head + 1 /\
    block_timestamp b = new_timestamp clock /\
    transactions b = (pending_transactions self ++ [reward])%list /\
    sender reward = "System" /\ recipient reward = miner_address /\
    amount reward = mining_reward self /\ signature reward = None /\
    merkle_root b = calculate_merkle_root (transactions b) /\
    1 <= nonce b /\
    chain self' = (chain self ++ [b])%list /\
    pending_transactions self' = [].
Proof.
  intros Hmine.
  destruct (mine_block_mined _ _ _ _ _ _ Hmine)
    as (head & found & Hlast & _ & Hpow & Hb & ->).
  destruct (proof_of_work_found _ _ _ _ Hpow) as (_ & Hnonce & Hfound).
  exists head. eexists. split; [exact Hlast|].
  rewrite Hb, Hfound. simpl in *.
  repeat split; try reflexivity; try lia.
  - by rewrite chain_adjust_difficulty.
  - unfold adjust_difficulty. destruct (_ <? 2)%nat; [done|].
    destruct (0 <? _)%float; [|done].
    destruct (_ <? _)%float; [done|]. by destruct (_ <? _)%float.
Qed.

(** X4: [mine_block] changes the ledger only when it returns a block: with
    an empty mempool it returns nothing, with pending transactions on an
    empty chain it raises [IndexError], and in both cases, as while the
    search is unfinished, the ledger is the one it was given. *)
Theorem mine_block_failure_unchanged (fuel : nat) (self : Blockchain)
    (miner_address : string) (clock : MineClock) :
  let r := mine_block fuel self miner_address clock in
  (forall b, r.1 <> Mined b) ->
  r.2 = self /\
  (pending_transactions self = [] -> r.1 = NoTransactions) /\
  (pending_transactions self <> [] -> chain self = [] -> r.1 = MineRaised IndexError).
Proof.
  simpl. unfold mine_block, get_latest_block.
  destruct (pending_transactions self) as [|tx txs] eqn:Hp; [done|].
  destruct (chain self) as [|g rest] using rev_ind.
  - simpl. done.
  - rewrite last_snoc.
    destruct (proof_of_work _ _ _) as [found|].
    + intros Hnot. by destruct (Hnot _ eq_refl).
    + intros _. split; [done|]. split; [done|].
      intros _ Hnil. by destruct rest.
Qed.

(** The search tries the nonces in increasing order. *)
Lemma proof_of_work_skips (fuel : nat) (target : string) (candidate found : Block) :
  proof_of_work fuel target candidate = Some found ->
  forall n, nonce candidate < n < nonce found ->
    startswith (Block_calculate_hash (with_nonce n candidate)) target = false.
Proof.
  revert candidate. induction fuel as [|fuel IH]; intros candidate; [discriminate|].
  simpl. intros Hrest n Hn.
  destruct (startswith (Block_calculate_hash (with_nonce (nonce candidate + 1) candidate))
              target) eqn:Hfirst.
  - injection Hrest as <-. simpl in Hn. lia.
  - destruct (decide (n = nonce candidate + 1)) as [->|Hne]; [exact Hfirst|].
    apply (IH _ Hrest n). simpl. lia.
Qed.

(** X5: the nonce of a mined block is the first one, counting up from 1,
    whose content hash meets the target: every smaller nonce gives the same
    block a hash that does not start with the required zeros. *)
Theorem mined_nonce_is_first (fuel : nat) (self self' : Blockchain)
    (miner_address : string) (clock : MineClock) (b : Block) :
  mine_block fuel self miner_address clock = (Mined b, self') ->
  forall n, 1 <= n < nonce b ->
    startswith (Block_calculate_hash (with_nonce n b)) (zeros (difficulty b)) = false.
Proof.
  intros Hmine n Hn.
  destruct (mine_block_mined _ _ _ _ _ _ Hmine)
    as (head & found & _ & _ & Hpow & Hb & _).
  destruct (proof_of_work_found _ _ _ _ Hpow) as (_ & _ & Hfound).
  pose proof (proof_of_work_skips _ _ _ _ Hpow n) as Hskip.
  rewrite Hb in *. simpl in Hn.
  rewrite Hfound in Hskip |- *. simpl in *.
  apply Hskip. lia.
Qed.

End BalanceFacts.

Section ValidityFacts.
Context `{Runtime}.

Lemma lookup_snoc_last {A} (l : list A) (x : A) (i : nat) (y : A) :
  (l ++ [x])%list !! i = Some y ->
  ((i < length l)%nat /\ l !! i = Some y) \/ (i = length l /\ y = x).
Proof.
  intros Hi. destruct (decide (i < length l)%nat) as [Hlt|Hge].
  - left. split; [done|]. by rewrite lookup_app_l in Hi.
  - right. rewrite lookup_app_r in Hi by lia.
    destruct (i - length l)%nat as [|k] eqn:Hk; [|by destruct k].
    injection Hi as <-. split; [lia|done].
Qed.

(** A valid chain stays valid with one more block that passes the three
    checks against its last block. *)
Lemma chain_valid_spec_snoc (c : list Block) (head b : Block) :
  chain_valid_spec c ->
  last c = Some head ->
  previous_hash b = hash head ->
  startswith (hash b) (zeros (difficulty b)) = true ->
  Block_calculate_hash b = hash b ->
  chain_valid_spec (c ++ [b]).
Proof.
  intros Hvalid Hlast Hlink Hpow Hown i current previous Hge Hcur Hprev.
  destruct (lookup_snoc_last _ _ _ _ Hcur) as [[Hlt Hcur']|[-> ->]].
  - apply (Hvalid i current previous Hge Hcur').
    by rewrite lookup_app_l in Hprev by lia.
  - rewrite lookup_app_l in Hprev by lia.
    rewrite last_lookup in Hlast.
    replace (length c - 1)%nat with (Nat.pred (length c)) in Hprev by lia.
    rewrite Hlast in Hprev. injection Hprev as <-. done.
Qed.

Lemma is_block_valid_true (self : Blockchain) (block : Block) :
  is_block_valid self block = Return true <->
  exists head, last (chain self) = Some head /\
    previous_hash block = hash head /\
    startswith (hash block) (zeros (difficulty block)) = true /\
    Block_calculate_hash block = hash block.
Proof.
  unfold is_block_valid, get_latest_block.
  destruct (last (chain self)) as [head|]; simpl.
  - split.
    + intros Hret. exists head. split; [done|].
      destruct (String.eqb_spec (previous_hash block) (hash head)) as [Hl|];
        simpl in Hret; [|discriminate].
      destruct (startswith (hash block) (zeros (difficulty block)));
        simpl in Hret; [|discriminate].
      destruct (String.eqb_spec (Block_calculate_hash block) (hash block)) as [Ho|];
        simpl in Hret; [|discriminate].
      done.
    + intros (head' & [= <-] & Hl & Hp & Ho).
      apply String.eqb_eq in Hl, Ho. by rewrite Hl, Hp, Ho.
  - split; [discriminate|]. by intros (head & ? & _).
Qed.

(** X6: [add_block] appends a block exactly when the chain has a last
    block, the new block names that block's stored hash, its stored hash
    meets its difficulty and is its content hash; the [utxo_set] is then
    rebuilt and nothing else changes. On an empty chain it raises
    [IndexError]; whenever it does not return [True] the ledger is the one
    it was given. *)
Theorem add_block_appends_checked (self : Blockchain) (block : Block) :
  let r := add_block self block in
  (r.1 = Return true <->
   exists head, last (chain self) = Some head /\
     previous_hash block = hash head /\
     startswith (hash block) (zeros (difficulty block)) = true /\
     Block_calculate_hash block = hash block) /\
  (r.1 = Return true ->
   r.2 = update_utxo_set (with_chain (chain self ++ [block])%list self)) /\
  (r.1 <> Return true -> r.2 = self) /\
  (chain self = [] -> r.1 = Raise IndexError).
Proof.
  simpl. rewrite <- is_block_valid_true. unfold add_block.
  destruct (is_block_valid self block) as [[|]|e] eqn:Hvalid; simpl.
  - repeat split; try done. intros Hnil.
    apply is_block_valid_true in Hvalid as (head & Hlast & _).
    rewrite Hnil in Hlast. discriminate.
  - repeat split; try done. intros Hnil.
    unfold is_block_valid, get_latest_block in Hvalid. rewrite Hnil in Hvalid.
    discriminate.
  - repeat split; try done. intros Hnil.
    unfold is_block_valid, get_latest_block in Hvalid. rewrite Hnil in Hvalid.
    simpl in Hvalid. congruence.
Qed.

Lemma mine_block_cases (fuel : nat) (self : Blockchain) (miner_address : string)
    (clock : MineClock) :
  (exists b, (mine_block fuel self miner_address clock).1 = Mined b) \/
  (mine_block fuel self miner_address clock).2 = self.
Proof.
  unfold mine_block.
  destruct (pending_transactions self); [by right|].
  destruct (get_latest_block self); [|by right].
  destruct (proof_of_work _ _ _); [left; by eexists|by right].
Qed.

Lemma honest_ledger_snoc (self : Blockchain) (head b : Block) (self' : Blockchain) :
  honest_ledger self ->
  last (chain self) = Some head ->
  previous_hash b = hash head ->
  startswith (hash b) (zeros (difficulty b)) = true ->
  Block_calculate_hash b = hash b ->
  chain self' = (chain self ++ [b])%list ->
  honest_ledger self'.
Proof.
  intros [Hvalid Hown] Hlast Hlink Hpow Hb Hchain. unfold honest_ledger.
  rewrite Hchain. split.
  - by apply (chain_valid_spec_snoc _ head).
  - intros x Hx. apply elem_of_app in Hx as [Hx|Hx]; [by apply Hown|].
    apply list_elem_of_singleton in Hx as ->. done.
Qed.

Lemma honest_new_Blockchain (difficulty0 : Z) (now : float) :
  honest_ledger (new_Blockchain difficulty0 now).
Proof.
  split.
  - intros [|[|i]] current previous Hge Hcur Hprev; simpl in *; try lia; discriminate.
  - intros b Hb. apply list_elem_of_singleton in Hb as ->. reflexivity.
Qed.

Lemma honest_add_transaction (self : Blockchain) (sender0 recipient0 : string)
    (amount0 : float) (wallet : Wallet) (now_seconds : Z) (now : float) :
  honest_ledger self ->
  honest_ledger (add_transaction self sender0 recipient0 amount0 wallet now_seconds now).2.
Proof. unfold honest_ledger. by rewrite chain_add_transaction. Qed.

Lemma honest_mine_block (fuel : nat) (self : Blockchain) (miner_address : string)
    (clock : MineClock) :
  honest_ledger self ->
  honest_ledger (mine_block fuel self miner_address clock).2.
Proof.
  intros Hhonest.
  destruct (mine_block_cases fuel self miner_address clock) as [[b Hb1]|Hsame];
    [|by rewrite Hsame].
  destruct (mine_block fuel self miner_address clock) as [r self'] eqn:Hmine.
  simpl in *. subst r.
  destruct (mine_block_mined _ _ _ _ _ _ Hmine)
    as (head & found & Hlast & _ & Hpow & Hb & ->).
  destruct (proof_of_work_found _ _ _ _ Hpow) as (Hmeets & _ & Hfound).
  apply (honest_ledger_snoc self head b); try done.
  - rewrite Hb, Hfound. simpl. symmetry. apply Hhonest.
    apply list_elem_of_lookup. exists (Nat.pred (length (chain self))).
    by rewrite <- last_lookup.
  - rewrite Hb. simpl. rewrite Hfound in Hmeets |- *. exact Hmeets.
  - by rewrite Hb.
  - by rewrite chain_adjust_difficulty.
Qed.

Lemma honest_add_block (self : Blockchain) (block : Block) :
  honest_ledger self -> honest_ledger (add_block self block).2.
Proof.
  intros Hhonest. unfold add_block.
  destruct (is_block_valid self block) as [[|]|e] eqn:Hvalid; simpl; try done.
  apply is_block_valid_true in Hvalid as (head & Hlast & Hlink & Hpow & Hown).
  by apply (honest_ledger_snoc self head block).
Qed.

(** X7: a new ledger is honest (its chain is valid and every block stores
    its own content hash), and a submission, a mined block and a block
    taken by [add_block] each keep an honest ledger honest; [is_chain_valid]
    then returns [True]. *)
Theorem honest_ledger_preserved (self : Blockchain) :
  honest_ledger self ->
  is_chain_valid self = true /\
  (forall sender0 recipient0 amount0 wallet now_seconds now,
     honest_ledger
       (add_transaction self sender0 recipient0 amount0 wallet now_seconds now).2) /\
  (forall fuel miner_address clock,
     honest_ledger (mine_block fuel self miner_address clock).2) /\
  (forall block, honest_ledger (add_block self block).2).
Proof.
  intros Hhonest. split; [|split; [|split]].
  - apply is_chain_valid_spec, Hhonest.
  - intros. by apply honest_add_transaction.
  - intros. by apply honest_mine_block.
  - intros. by apply honest_add_block.
Qed.

(** Every ledger built by submissions and mining alone is honest. *)
Lemma reachable_local_honest (self : Blockchain) :
  reachable_local self -> honest_ledger self.
Proof.
  induction 1 as [difficulty0 now | self self' _ IH Hstep].
  - apply honest_new_Blockchain.
  - destruct Hstep; [by apply honest_add_transaction|by apply honest_mine_block].
Qed.

Lemma structurally_sound_snoc (c : list Block) (head b : Block) :
  structurally_sound c ->
  last c = Some head ->
  previous_hash b = hash head ->
  index b = index head + 1 ->
  structurally_sound (c ++ [b]).
Proof.
  intros [(first & Hfirst & Hshape) Hlinks] Hlast Hlink Hindex. split.
  - exists first. split; [|done]. by apply lookup_app_l_Some.
  - intros i current previous Hge Hcur Hprev.
    destruct (lookup_snoc_last _ _ _ _ Hcur) as [[Hlt Hcur']|[-> ->]].
    + apply (Hlinks i current previous Hge Hcur').
      by rewrite lookup_app_l in Hprev by lia.
    + rewrite lookup_app_l in Hprev
        by (apply lookup_lt_Some in Hfirst; lia).
      rewrite last_lookup in Hlast.
      replace (length c - 1)%nat with (Nat.pred (length c)) in Hprev by lia.
      rewrite Hlast in Hprev. injection Hprev as <-. done.
Qed.

(** Every ledger built by submissions and mining alone has a structurally
    sound chain. *)
Lemma reachable_local_sound (self : Blockchain) :
  reachable_local self -> structurally_sound (chain self).
Proof.
  intros Hreach. pose proof (reachable_local_honest self Hreach) as Hhonest.
  revert Hhonest. induction Hreach as [difficulty0 now | self self' Hreach IH Hstep];
    intros Hhonest.
  - split; [eexists; by split|].
    intros [|[|i]] current previous Hge Hcur Hprev; simpl in *; try lia; discriminate.
  - pose proof (reachable_local_honest self Hreach) as Hbefore.
    specialize (IH Hbefore).
    destruct Hstep as [self sender0 recipient0 amount0 wallet now_seconds now
                      | self fuel miner_address clock].
    + by rewrite chain_add_transaction.
    + destruct (mine_block_cases fuel self miner_address clock) as [[b Hb1]|Hsame];
        [|by rewrite Hsame].
      destruct (mine_block fuel self miner_address clock) as [r self'] eqn:Hmine.
      simpl in *. subst r.
      destruct (mine_block_mined _ _ _ _ _ _ Hmine)
        as (head & found & Hlast & _ & Hpow & Hb & ->).
      destruct (proof_of_work_found _ _ _ _ Hpow) as (_ & _ & Hfound).
      rewrite chain_adjust_difficulty. simpl.
      apply (structurally_sound_snoc _ head); try done.
      * rewrite Hb, Hfound. simpl. symmetry. apply Hbefore.
        apply list_elem_of_lookup. exists (Nat.pred (length (chain self))).
        by rewrite <- last_lookup.
      * by rewrite Hb, Hfound.
Qed.

(** X8: a chain built by submissions and mining alone, sent with
    [send_chain], is adopted by every node whose chain is shorter: the
    receiving ledger then holds exactly that chain, which [is_chain_valid]
    accepts, and keeps its own mempool. *)
Theorem local_chain_adopted_by_shorter (sending receiving : Blockchain) :
  reachable_local sending ->
  (length (chain receiving) < length (chain sending))%nat ->
  let r := handle_chain_response receiving (block_to_wire <$> chain sending) in
  r.1 = Return () /\
  chain r.2 = chain sending /\
  is_chain_valid r.2 = true /\
  pending_transactions r.2 = pending_transactions receiving.
Proof.
  intros Hreach Hlen. simpl.
  pose proof (reachable_local_sound sending Hreach) as Hsound.
  pose proof (reachable_local_honest sending Hreach) as [Hvalid _].
  unfold handle_chain_response. rewrite length_fmap.
  apply Nat.ltb_lt in Hlen. rewrite Hlen.
  destruct (validate_received_chain_wire (chain sending)) as (verdict & -> & Hverdict).
  apply Hverdict in Hsound as ->.
  rewrite append_received_wire. simpl.
  split; [done|]. split; [done|]. split; [|done].
  by apply is_chain_valid_spec.
Qed.

End ValidityFacts.

(** ** Further properties of the synchronisation *)

Lemma append_received_frame (chain_data : list BlockDict) (self : Blockchain) :
  exists c, (append_received self chain_data).2 = with_chain c self.
Proof.
  revert self. induction chain_data as [|block_data rest IH]; intros self; simpl.
  - exists (chain self). by destruct self.
  - destruct (block_of_dict block_data) as [block|e]; simpl.
    + destruct (IH (with_chain (chain self ++ [block])%list self)) as [c ->].
      by exists c.
    + exists (chain self). by destruct self.
Qed.

Lemma handle_chain_response_keeps_mempool_aux (self : Blockchain)
    (chain_data : list BlockDict) :
  pending_transactions (handle_chain_response self chain_data).2
  = pending_transactions self /\
  same_parameters self (handle_chain_response self chain_data).2.
Proof.
  destruct (append_received_frame chain_data (with_chain [] self)) as [c Hc].
  unfold handle_chain_response, same_parameters.
  destruct (_ <? _)%nat; [|done].
  destruct (validate_received_chain chain_data) as [[|]|e]; [|done..].
  destruct (append_received (with_chain [] self) chain_data) as [[[]|e] self'];
    simpl in *; by subst self'.
Qed.

(** X9: whatever a peer sends as a chain, complete or not, adopted or not,
    [handle_chain_response] leaves the mempool, the difficulty, the reward,
    the target block time and the time of the last adjustment check as
    they were: in particular it never removes from the mempool the
    transactions that the adopted chain already holds. *)
Theorem handle_chain_response_keeps_mempool (self : Blockchain)
    (chain_data : list BlockDict) :
  let r := handle_chain_response self chain_data in
  pending_transactions r.2 = pending_transactions self /\
  same_parameters self r.2.
Proof.
  simpl. pose proof (append_received_frame chain_data (with_chain [] self)) as [c Hc].
  unfold handle_chain_response.
  destruct (length (chain self) <? length chain_data)%nat; [|by split].
  destruct (validate_received_chain chain_data) as [[|]|e]; [|by split..].
  destruct (append_received (with_chain [] self) chain_data) as [[[]|e] self'];
    simpl in Hc; subst self'; by split.
Qed.

Section RelayFacts.
Context `{Runtime}.

Lemma same_parameters_adjust (t : float) (self : Blockchain) :
  (1 <= bc_difficulty self ->
   1 <= bc_difficulty (adjust_difficulty t self)) /\
  (0 <= bc_difficulty self ->
   bc_difficulty self - 1 <= bc_difficulty (adjust_difficulty t self)
     <= bc_difficulty self + 1).
Proof.
  unfold adjust_difficulty. destruct (_ <? 2)%nat; [simpl; lia|].
  destruct (0 <? _)%float; [|simpl; lia].
  destruct (_ <? _)%float; [simpl; lia|].
  destruct (_ <? _)%float; simpl; lia.
Qed.

Lemma difficulty_add_transaction (self : Blockchain) (sender0 recipient0 : string)
    (amount0 : float) (wallet : Wallet) (now_seconds : Z) (now : float) :
  bc_difficulty
    (add_transaction self sender0 recipient0 amount0 wallet now_seconds now).2
  = bc_difficulty self.
Proof.
  unfold add_transaction.
  destruct (negb (sender0 =? "Genesis")%string && _); [done|].
  destruct (negb (verify_signature _ _ _)); [done|].
  by destruct (negb (is_valid_transaction _ _)).
Qed.

(** X10: no operation moves the difficulty by more than one step or, from
    a difficulty of at least 1, below 1: submissions, blocks and chains
    taken from peers leave it as it is, and a mined block moves it by one at
    most. *)
Theorem difficulty_moves_by_one (self self' : Blockchain) :
  step self self' ->
  1 <= bc_difficulty self ->
  1 <= bc_difficulty self' /\
  bc_difficulty self - 1 <= bc_difficulty self' <= bc_difficulty self + 1.
Proof.
  intros Hstep Hge.
  destruct Hstep as [self sender0 recipient0 amount0 wallet now_seconds now
                    | self fuel miner_address clock
                    | self block
                    | self chain_data].
  - rewrite difficulty_add_transaction. lia.
  - unfold mine_block.
    destruct (pending_transactions self); [simpl; lia|].
    destruct (get_latest_block self); [|simpl; lia].
    destruct (proof_of_work _ _ _); [|simpl; lia].
    cbn [snd].
    match goal with
    | |- context [adjust_difficulty ?t ?s] =>
        destruct (same_parameters_adjust t s) as [H1 H2]
    end.
    simpl in *. split; [by apply H1|apply H2; lia].
  - unfold add_block. destruct (is_block_valid self block) as [[|]|]; simpl; lia.
  - destruct (handle_chain_response_keeps_mempool_aux self chain_data) as [_ [-> _]].
    lia.
Qed.

End RelayFacts.

(** ** Relayed transactions and blocks *)

Lemma transaction_of_message_round_trip (tx : Transaction) :
  transaction_of_message (transaction_message tx) = Return tx.
Proof. by destruct tx. Qed.

Lemma existsb_same_id (tx : Transaction) (pending : list Transaction) :
  existsb (fun p => String.eqb (transaction_id p) (transaction_id tx)) pending = true
  <-> transaction_id tx ∈ transaction_id <$> pending.
Proof.
  rewrite existsb_exists, list_elem_of_fmap. split.
  - intros (p & Hin & Heq). apply String.eqb_eq in Heq.
    exists p. split; [done|]. by apply list_elem_of_In.
  - intros (p & Heq & Hin). exists p. split; [by apply list_elem_of_In|].
    by apply String.eqb_eq.
Qed.

Lemma handle_new_transaction_message (self : Blockchain) (tx : Transaction) :
  handle_new_transaction self (transaction_message tx)
  = if existsb (fun p => String.eqb (transaction_id p) (transaction_id tx))
         (pending_transactions self)
    then (Return (), self)
    else (Return (),
          with_pending_transactions (pending_transactions self ++ [tx])%list self).
Proof.
  unfold handle_new_transaction. by rewrite transaction_of_message_round_trip.
Qed.

(** X11: a transaction relayed with [broadcast_transaction] enters the
    receiving mempool as it was sent, signature included, unless a pending
    transaction already has its identifier, in which case nothing changes;
    neither balance nor signature is looked at. Receiving it a second time
    changes nothing, and a mempool without repeated identifiers stays so. *)
Theorem relayed_transaction_deduplicated (self : Blockchain) (tx : Transaction) :
  let r := handle_new_transaction self (transaction_message tx) in
  r.1 = Return () /\
  (transaction_id tx ∈ transaction_id <$> pending_transactions self -> r.2 = self) /\
  (transaction_id tx ∉ transaction_id <$> pending_transactions self ->
   r.2 = with_pending_transactions (pending_transactions self ++ [tx])%list self) /\
  (handle_new_transaction r.2 (transaction_message tx)).2 = r.2 /\
  (NoDup (transaction_id <$> pending_transactions self) ->
   NoDup (transaction_id <$> pending_transactions r.2)).
Proof.
  cbv zeta. rewrite (handle_new_transaction_message self).
  destruct (existsb _ (pending_transactions self)) eqn:Hseen; cbn [fst snd].
  - rewrite handle_new_transaction_message, Hseen.
    apply existsb_same_id in Hseen. repeat split; try done.
  - assert (Hnew : transaction_id tx ∉ transaction_id <$> pending_transactions self).
    { intros Hin. apply existsb_same_id in Hin. congruence. }
    assert (Hnow : existsb
              (fun p => String.eqb (transaction_id p) (transaction_id tx))
              (pending_transactions self ++ [tx]) = true).
    { apply existsb_same_id. rewrite fmap_app. apply elem_of_app. right.
      apply list_elem_of_singleton. reflexivity. }
    rewrite handle_new_transaction_message. simpl pending_transactions.
    rewrite Hnow. repeat split; try done.
    intros Hnodup. rewrite fmap_app. apply NoDup_app. split; [done|].
    split; [|apply NoDup_singleton].
    intros x Hx Hx'. apply list_elem_of_singleton in Hx' as ->. done.
Qed.

(** X12: [handle_new_transaction] returns normally exactly when the payload
    has all six keys, 'signature' included (unlike the block handlers, which
    read the signature with [get]); with a key missing it raises [KeyError]
    and leaves the ledger as it was. *)
Theorem relayed_transaction_needs_all_keys (self : Blockchain)
    (transaction_data : TxMessage) :
  let r := handle_new_transaction self transaction_data in
  (r.1 = Return () <->
   is_Some (tm_sender transaction_data) /\ is_Some (tm_recipient transaction_data) /\
   is_Some (tm_amount transaction_data) /\
   is_Some (tm_transaction_id transaction_data) /\
   is_Some (tm_timestamp transaction_data) /\
   is_Some (tm_signature transaction_data)) /\
  (r.1 <> Return () -> exists key, r = (Raise (KeyError key), self)).
Proof.
  cbv zeta. unfold handle_new_transaction, transaction_of_message.
  destruct transaction_data as [[s|] [r|] [a|] [i|] [t|] [sig|]]; simpl;
    try (split; [split; [discriminate|intros (?&?&?&?&?&?); by repeat
           match goal with Hn : is_Some None |- _ => destruct Hn as [? Hn] end]
         | intros _; by eexists]).
  destruct (existsb _ _); simpl; (split; [split; [by repeat split|done]|done]).
Qed.

Section BlockRelayFacts.
Context `{Runtime}.

Lemma transactions_of_dicts_entries (txs : list Transaction) :
  transactions_of_dicts (tx_to_dict_entry <$> txs)
  = Return (with_signature None <$> txs).
Proof.
  induction txs as [|tx txs IH]; [done|].
  simpl. change (list_fmap Transaction TxDict tx_to_dict_entry txs)
    with (tx_to_dict_entry <$> txs).
  rewrite IH. by destruct tx.
Qed.

Lemma block_of_dict_message (b : Block) :
  block_of_dict (block_message b) = Return (without_signatures b).
Proof.
  unfold block_of_dict, block_message.
  cbn [bd_transactions subscript mbind outcome_bind].
  rewrite transactions_of_dicts_entries. by destruct b.
Qed.

Lemma block_data_without_signatures (b : Block) :
  block_data (without_signatures b) = block_data b.
Proof.
  unfold block_data, without_signatures. simpl.
  rewrite <- list_fmap_compose.
  replace (Transaction_to_dict ∘ with_signature None <$> transactions b)
    with (Transaction_to_dict <$> transactions b); [done|].
  apply list_fmap_ext. intros i tx _. reflexivity.
Qed.

(** X13: the two encodings of a block round-trip: the entry [send_chain]
    makes is rebuilt as the same block, signatures included; the payload of
    [broadcast_block] is rebuilt as the block without its signatures, with
    the same hashed content and so the same content hash and stored hash. *)
Theorem block_encodings_round_trip (b : Block) :
  block_of_dict (block_to_wire b) = Return b /\
  block_of_dict (block_message b) = Return (without_signatures b) /\
  Block_calculate_hash (without_signatures b) = Block_calculate_hash b /\
  hash (without_signatures b) = hash b.
Proof.
  split; [apply block_of_dict_to_wire|]. split; [apply block_of_dict_message|].
  split; [|reflexivity].
  unfold Block_calculate_hash. by rewrite block_data_without_signatures.
Qed.

Lemma valid_and_extends_true (self : Blockchain) (block : Block) :
  valid_and_extends self block = Return true <-> is_block_valid self block = Return true.
Proof.
  unfold valid_and_extends. split.
  - by destruct (is_block_valid self block) as [[|]|].
  - intros Hvalid. rewrite Hvalid.
    apply is_block_valid_true in Hvalid as (head & Hlast & Hlink & _).
    unfold get_latest_block. rewrite Hlast. simpl.
    apply String.eqb_eq in Hlink. by rewrite Hlink.
Qed.

(** What [handle_new_block] does with a block it can rebuild. *)
Lemma handle_new_block_decoded (self : Blockchain) (block_data0 : BlockDict)
    (block : Block) :
  block_of_dict block_data0 = Return block ->
  (is_block_valid self block = Return true ->
   handle_new_block self block_data0
   = (Return (),
      with_pending_transactions
        (filter (fun tx => transaction_id tx ∉
                   (list_to_set (transaction_id <$> transactions block) : gset string))
           (pending_transactions self))
        (update_utxo_set (with_chain (chain self ++ [block])%list self)))) /\
  (is_block_valid self block <> Return true ->
   (handle_new_block self block_data0).2 = self).
Proof.
  intros Hdecode. unfold handle_new_block. rewrite Hdecode. split.
  - intros Hvalid. rewrite (proj2 (valid_and_extends_true self block) Hvalid).
    unfold add_block. by rewrite Hvalid.
  - intros Hnot.
    destruct (valid_and_extends self block) as [[|]|e] eqn:Hcond; [|done..].
    by apply valid_and_extends_true in Hcond.
Qed.

(** X14: a block relayed with [broadcast_block] is taken exactly when
    [is_block_valid] accepts it on the receiving chain; it is then appended
    without its signatures, the [utxo_set] is rebuilt, and every pending
    transaction whose identifier occurs in the block leaves the mempool,
    the others staying in their order. Otherwise the ledger is left as it
    was. *)
Theorem relayed_block_purges_mempool (self : Blockchain) (b : Block) :
  let r := handle_new_block self (block_message b) in
  (is_block_valid self (without_signatures b) = Return true ->
   r.1 = Return () /\
   chain r.2 = (chain self ++ [without_signatures b])%list /\
   pending_transactions r.2
   = filter (fun tx => transaction_id tx ∉ transaction_id <$> transactions b)
       (pending_transactions self) /\
   (forall tx mined, tx ∈ pending_transactions r.2 -> mined ∈ transactions b ->
      transaction_id tx <> transaction_id mined)) /\
  (is_block_valid self (without_signatures b) <> Return true -> r.2 = self).
Proof.
  simpl.
  destruct (handle_new_block_decoded self (block_message b) (without_signatures b)
              (block_of_dict_message b)) as [Hyes Hno].
  split; [|exact Hno].
  intros Hvalid. rewrite (Hyes Hvalid). simpl.
  assert (Hfilter :
    filter (fun tx => transaction_id tx ∉
              (list_to_set (transaction_id <$> (with_signature None <$> transactions b))
                 : gset string))
      (pending_transactions self)
    = filter (fun tx => transaction_id tx ∉ transaction_id <$> transactions b)
        (pending_transactions self)).
  { apply list_filter_iff. intros tx.
    rewrite elem_of_list_to_set, <- list_fmap_compose. done. }
  split; [done|]. split; [done|]. split; [exact Hfilter|].
  intros tx mined Htx Hmined Heq. rewrite Hfilter in Htx.
  apply list_elem_of_filter in Htx as [Hnot _]. apply Hnot.
  rewrite Heq. by apply list_elem_of_fmap_2.
Qed.

(** X15: two honest nodes with the same chain stay in step: when one mines
    a block and broadcasts it, the other takes it, so that both chains end
    with the same block up to the signatures of its transactions, the
    receiver's chain is still valid, and the mined transactions leave the
    receiver's mempool. *)
Theorem mined_block_taken_by_peer (fuel : nat) (miner miner' receiver : Blockchain)
    (miner_address : string) (clock : MineClock) (b : Block) :
  honest_ledger miner ->
  chain receiver = chain miner ->
  mine_block fuel miner miner_address clock = (Mined b, miner') ->
  let r := handle_new_block receiver (block_message b) in
  r.1 = Return () /\
  chain miner' = (chain miner ++ [b])%list /\
  chain r.2 = (chain miner ++ [without_signatures b])%list /\
  is_chain_valid r.2 = true /\
  (forall tx, tx ∈ pending_transactions r.2 ->
     transaction_id tx ∉ transaction_id <$> pending_transactions miner).
Proof.
  intros Hhonest Hchain Hmine. simpl.
  destruct (mine_block_mined _ _ _ _ _ _ Hmine)
    as (head & found & Hlast & _ & Hpow & Hb & Hminer').
  destruct (proof_of_work_found _ _ _ _ Hpow) as (Hmeets & _ & Hfound).
  assert (Hhead : hash head = Block_calculate_hash head).
  { apply Hhonest. apply list_elem_of_lookup.
    exists (Nat.pred (length (chain miner))). by rewrite <- last_lookup. }
  assert (Hlink : previous_hash b = hash head) by (by rewrite Hb, Hfound).
  assert (Hpowb : startswith (hash b) (zeros (difficulty b)) = true).
  { rewrite Hb. simpl. rewrite Hfound in Hmeets |- *. exact Hmeets. }
  assert (Hown : Block_calculate_hash b = hash b) by (by rewrite Hb).
  assert (Hvalid : is_block_valid receiver (without_signatures b) = Return true).
  { apply is_block_valid_true. exists head. rewrite Hchain.
    split; [done|]. split; [done|]. split; [done|].
    unfold Block_calculate_hash. by rewrite block_data_without_signatures. }
  destruct (handle_new_block_decoded receiver (block_message b) (without_signatures b)
              (block_of_dict_message b)) as [Hyes _].
  rewrite (Hyes Hvalid). simpl. rewrite Hchain.
  split; [done|]. split; [by rewrite Hminer', chain_adjust_difficulty|].
  split; [done|]. split.
  - apply is_chain_valid_spec. simpl.
    apply (chain_valid_spec_snoc _ head); try done; [apply Hhonest|].
    unfold Block_calculate_hash. by rewrite block_data_without_signatures.
  - intros tx Htx. apply list_elem_of_filter in Htx as [Hnot _].
    intros Hin. apply Hnot. rewrite elem_of_list_to_set, <- list_fmap_compose.
    assert (Htxs : transaction_id <$> pending_transactions miner
                   ⊆ transaction_id <$> transactions b).
    { rewrite Hb, Hfound. simpl. rewrite fmap_app. by apply sublist_subseteq, sublist_inserts_r. }
    by apply Htxs.
Qed.

End BlockRelayFacts.

(** ** The node *)

#[local] Set Warnings "-clear-no-such-hyp".


Lemma own_address_add_peer (self : P2PNode) (peer_address : string) :
  own_address (add_peer self peer_address) = own_address self.
Proof. unfold add_peer. by destruct (negb _). Qed.

Lemma peers_add_peer (self : P2PNode) (peer_address : string) :
  peers (add_peer self peer_address)
  = peers self ∪ ({[peer_address]} ∖ {[own_address self]}).
Proof.
  unfold add_peer.
  destruct (String.eqb_spec peer_address (own_address self)) as [->|Hne]; simpl.
  - set_solver.
  - set_solver.
Qed.

Lemma handle_peer_discovery_spec (discovered : list string) (self : P2PNode) :
  own_address (handle_peer_discovery self discovered) = own_address self /\
  blockchain (handle_peer_discovery self discovered) = blockchain self /\
  peers (handle_peer_discovery self discovered)
  = peers self ∪ (list_to_set discovered ∖ {[own_address self]}).
Proof.
  unfold handle_peer_discovery.
  revert self. induction discovered as [|peer rest IH]; intros self; simpl.
  - split; [done|]. split; [done|]. set_solver.
  - set (next := if negb (peer =? own_address self)%string
                 then add_peer self peer else self).
    assert (Hnext : own_address next = own_address self /\
                    blockchain next = blockchain self /\
                    peers next = peers self ∪ ({[peer]} ∖ {[own_address self]})).
    { subst next. destruct (String.eqb_spec peer (own_address self)) as [->|Hne]; simpl.
      - split; [done|]. split; [done|]. set_solver.
      - rewrite own_address_add_peer, peers_add_peer.
        split; [done|]. split; [|done]. unfold add_peer. by destruct (negb _). }
    destruct Hnext as (Hown & Hbc & Hpeers).
    destruct (IH next) as (-> & -> & ->). rewrite Hown, Hbc, Hpeers.
    split; [done|]. split; [done|]. set_solver.
Qed.

(** X16: peer discovery adds every announced address except the node's
    own, and forgets none: afterwards the peer set is the old one together
    with the announced addresses other than [host:port]. [add_peer] does the
    same for one address, and [remove_peer] removes exactly that address. *)
Theorem peer_discovery_adds_all_but_self (self : P2PNode) (discovered : list string)
    (peer_address : string) :
  peers (handle_peer_discovery self discovered)
  = peers self ∪ (list_to_set discovered ∖ {[own_address self]}) /\
  peers (add_peer self peer_address)
  = peers self ∪ ({[peer_address]} ∖ {[own_address self]}) /\
  peers (remove_peer self peer_address) = peers self ∖ {[peer_address]} /\
  add_peer (add_peer self peer_address) peer_address = add_peer self peer_address.
Proof.
  split; [apply handle_peer_discovery_spec|]. split; [apply peers_add_peer|].
  split; [reflexivity|].
  unfold add_peer.
  destruct (String.eqb_spec peer_address (own_address self)) as [->|Hne]; simpl.
  - by rewrite String.eqb_refl.
  - assert (Hne' : peer_address <> own_address (with_peers (peers self ∪ {[peer_address]}) self))
      by done.
    apply String.eqb_neq in Hne'. rewrite Hne'. simpl. unfold with_peers. simpl.
    f_equal. set_solver.
Qed.

Section NodeFacts.
Context `{Runtime}.

Lemma handle_new_transaction_frame (self : Blockchain) (m : TxMessage) :
  same_parameters self (handle_new_transaction self m).2 /\
  chain (handle_new_transaction self m).2 = chain self.
Proof.
  unfold handle_new_transaction, same_parameters.
  destruct (transaction_of_message m); [|done].
  by destruct (existsb _ _).
Qed.

Lemma handle_new_block_frame (self : Blockchain) (block_data0 : BlockDict) :
  same_parameters self (handle_new_block self block_data0).2.
Proof.
  unfold handle_new_block, same_parameters.
  destruct (block_of_dict block_data0) as [block|]; [|done].
  destruct (valid_and_extends self block) as [[|]|]; [|done..].
  unfold add_block. by destruct (is_block_valid self block) as [[|]|].
Qed.

(** The shape of what [process_message] returns. *)
Lemma process_message_cases (self : P2PNode) (message : Message) :
  let r := process_message self message in
  r.2 = self \/
  (exists m, r.2 = with_blockchain (handle_new_transaction (blockchain self) m).2 self) \/
  (exists d, r.2 = with_blockchain (handle_new_block (blockchain self) d).2 self) \/
  (exists c, r.2 = with_blockchain (handle_chain_response (blockchain self) c).2 self) \/
  (exists l, r.2 = handle_peer_discovery self l).
Proof.
  cbv zeta. unfold process_message.
  repeat case_bool_decide.
  - destruct (msg_transaction message); simpl; [right; left; by eexists|by left].
  - destruct (msg_block message); simpl; [right; right; left; by eexists|by left].
  - by left.
  - destruct (msg_chain message); simpl;
      [right; right; right; left; by eexists|by left].
  - destruct (msg_peers message); simpl;
      [right; right; right; right; by eexists|by left].
  - by left.
Qed.

(** X17: no message, well formed or not, changes what a node mines with
    or who it is: after [process_message] the node has the same address,
    difficulty, reward, target block time and time of the last adjustment
    check, and an address that was not among its peers before is among them
    afterwards only if it is not the node's own. *)
Theorem message_keeps_node_parameters (self : P2PNode) (message : Message) :
  let r := process_message self message in
  host r.2 = host self /\ port r.2 = port self /\
  same_parameters (blockchain self) (blockchain r.2) /\
  (own_address self ∉ peers self -> own_address r.2 ∉ peers r.2).
Proof.
  cbv zeta.
  destruct (process_message_cases self message)
    as [->|[[m ->]|[[d ->]|[[c ->]|[l ->]]]]]; simpl.
  - by repeat split.
  - repeat split; try done; apply handle_new_transaction_frame.
  - repeat split; try done; apply handle_new_block_frame.
  - repeat split; try done; apply handle_chain_response_keeps_mempool_aux.
  - destruct (handle_peer_discovery_spec l self) as (Hown & Hbc & Hpeers).
    unfold own_address in Hown |- *.
    assert (Hhp : host (handle_peer_discovery self l) = host self /\
                  port (handle_peer_discovery self l) = port self).
    { clear. unfold handle_peer_discovery. revert self.
      induction l as [|p l IH]; intros self; [done|]. simpl.
      destruct (IH (if negb (p =? own_address self)%string
                    then add_peer self p else self)) as [-> ->].
      unfold add_peer. by repeat destruct (negb _). }
    destruct Hhp as [Hhost Hport]. rewrite Hhost, Hport, Hbc.
    split; [done|]. split; [done|]. split; [by repeat split|].
    intros Hnot. rewrite Hpeers. set_solver.
Qed.

End NodeFacts.

(** ** Transaction identifiers *)

Lemma string_app_cons (c : ascii) (r x : string) :
  String c r ++ x = String c (r ++ x).
Proof. reflexivity. Qed.

Lemma string_app_nil (x : string) : "" ++ x = x.
Proof. reflexivity. Qed.

(** No character of the string is an underscore. *)
Fixpoint no_underscore (s : string) : Prop :=
  match s with
  | EmptyString => True
  | String c s => c <> "_"%char /\ no_underscore s
  end.

Lemma no_underscore_uint (d : Decimal.uint) :
  no_underscore (NilEmpty.string_of_uint d).
Proof. induction d; simpl; try done; split; try done; discriminate. Qed.

Lemma no_underscore_str_of_int (z : Z) : no_underscore (str_of_int z).
Proof.
  unfold str_of_int, NilZero.string_of_int, NilZero.string_of_uint.
  destruct (Z.to_int z) as [d|d].
  - destruct d; try apply (no_underscore_uint (_ _)).
    simpl. split; [discriminate|done].
  - split; [discriminate|].
    destruct d; try apply (no_underscore_uint (_ _)).
    simpl. split; [discriminate|done].
Qed.

Lemma str_of_int_inj (a b : Z) : str_of_int a = str_of_int b -> a = b.
Proof.
  intros Heq. rewrite <- (DecimalZ.of_to a), <- (DecimalZ.of_to b). f_equal.
  assert (Hparse : forall z,
    NilZero.int_of_string (str_of_int z) = Some (Z.to_int z)).
  { intros z. apply NilZero.isi.
    - destruct z as [|p|p]; simpl; try discriminate.
      intros [= Hp]. by apply DecimalPos.Unsigned.to_uint_nonnil in Hp.
    - destruct z as [|p|p]; simpl; try discriminate.
      intros [= Hp]. by apply DecimalPos.Unsigned.to_uint_nonnil in Hp. }
  pose proof (Hparse a) as Ha. rewrite Heq, Hparse in Ha. by injection Ha.
Qed.

(** The text before the last underscore and the text after it are read
    back from their concatenation. *)
Lemma split_at_last_underscore (r1 r2 d1 d2 : string) :
  no_underscore d1 -> no_underscore d2 ->
  r1 ++ "_" ++ d1 = r2 ++ "_" ++ d2 -> r1 = r2 /\ d1 = d2.
Proof.
  intros Hd1 Hd2. revert r2.
  assert (Hcontains : forall r d, no_underscore (r ++ "_" ++ d) -> False).
  { induction r as [|c r IH]; intros d.
    - rewrite string_app_nil. simpl. by intros [? _].
    - rewrite string_app_cons. simpl. intros [_ Hrest]. by apply (IH d). }
  induction r1 as [|c r1 IH]; intros r2 Heq.
  - destruct r2 as [|c2 r2].
    + rewrite !string_app_nil in Heq. by injection Heq.
    + rewrite string_app_nil, string_app_cons in Heq.
      change ("_" ++ d1) with (String "_"%char d1) in Heq.
      injection Heq as _ Hrest. exfalso. apply (Hcontains r2 d2).
      by rewrite <- Hrest.
  - destruct r2 as [|c2 r2].
    + rewrite string_app_nil, string_app_cons in Heq.
      change ("_" ++ d2) with (String "_"%char d2) in Heq.
      injection Heq as _ Hrest. exfalso. apply (Hcontains r1 d1).
      by rewrite Hrest.
    + rewrite !string_app_cons in Heq. injection Heq as -> Hrest.
      destruct (IH r2 Hrest) as [-> ->]. done.
Qed.

(** The identifier [add_transaction] builds for a sender tells the
    recipient and the second apart. *)
Lemma transaction_id_inj (sender0 r1 r2 : string) (s1 s2 : Z) :
  sender0 ++ "_" ++ r1 ++ "_" ++ str_of_int s1
  = sender0 ++ "_" ++ r2 ++ "_" ++ str_of_int s2 ->
  r1 = r2 /\ s1 = s2.
Proof.
  intros Heq. apply (inj (String.append sender0)) in Heq.
  apply (inj (String.append "_")) in Heq.
  destruct (split_at_last_underscore r1 r2 (str_of_int s1) (str_of_int s2))
    as [-> Hs]; [apply no_underscore_str_of_int..|done|].
  split; [done|]. by apply str_of_int_inj.
Qed.

Section IdentifierFacts.
Context `{Runtime}.

(** X18: once a submission from a sender other than "Genesis" is pending,
    every further submission from that sender to another recipient, or at
    another second of the clock, is refused and changes nothing, whatever
    its amount and the sender's balance. The two demonstrations of
    double-spend prevention rely on this. *)
Theorem next_submission_refused (self self1 : Blockchain)
    (sender0 recipient1 recipient2 : string) (amount1 amount2 : float)
    (wallet1 wallet2 : Wallet) (seconds1 seconds2 : Z) (now1 now2 : float) :
  sender0 <> "Genesis" ->
  add_transaction self sender0 recipient1 amount1 wallet1 seconds1 now1
  = (TransactionAdded, self1) ->
  recipient2 <> recipient1 \/ seconds2 <> seconds1 ->
  let r := add_transaction self1 sender0 recipient2 amount2 wallet2 seconds2 now2 in
  returned r.1 = false /\ r.2 = self1.
Proof.
  intros Hgen Hfirst Hother. simpl.
  destruct (add_transaction_added _ _ _ _ _ _ _ _ Hfirst)
    as (tx & Hsender & _ & _ & Hid & _ & ->).
  unfold add_transaction.
  destruct (negb (sender0 =? "Genesis")%string && _); [done|].
  destruct (negb (verify_signature _ _ _)); [done|].
  unfold is_valid_transaction. simpl.
  apply String.eqb_neq in Hgen. rewrite Hgen.
  destruct (_ <? _)%float; [done|].
  rewrite (no_conflicting_pending_false _ tx); [done| |done|].
  - apply elem_of_app. right. by apply list_elem_of_singleton.
  - simpl. rewrite Hid. intros Heq.
    apply transaction_id_inj in Heq as [-> ->]. by destruct Hother.
Qed.

End IdentifierFacts.

(** ** The immutability demonstration *)

Section DemonstrationFacts.
Context `{Runtime}.

Lemma restore_tampered (b : Block) :
  with_hash (hash b)
    (restore_first_amount (amount <$> head (transactions b)) (tamper_first_amount b))
  = b.
Proof.
  unfold restore_first_amount, tamper_first_amount.
  destruct b as [i t txs p n d m h]. simpl.
  destruct txs as [|[s r a id ts sig] rest]; reflexivity.
Qed.

(** X19: [demonstrate_immutability] leaves the ledger exactly as it found
    it. It returns [False] on a chain of fewer than two blocks. On a chain
    that [is_chain_valid] accepts it returns [True] whenever adding 1.0 to
    the first amount of block 1 changes that block's content hash; when
    block 1 has no transaction, or its first amount is so large that adding
    1.0 gives the same float, nothing is tampered with and it returns
    [False]. *)
Theorem demonstration_restores_ledger (self : Blockchain) :
  let r := demonstrate_immutability self in
  r.2 = self /\
  ((length (chain self) < 2)%nat -> r.1 = false) /\
  (forall b, chain self !! 1%nat = Some b -> is_chain_valid self = true ->
     Block_calculate_hash (tamper_first_amount b) <> Block_calculate_hash b ->
     r.1 = true) /\
  (forall b, chain self !! 1%nat = Some b -> is_chain_valid self = true ->
     tamper_first_amount b = b -> r.1 = false).
Proof.
  cbv zeta. unfold demonstrate_immutability.
  destruct (Nat.ltb_spec (length (chain self)) 2) as [Hshort|Hlong].
  - split; [done|]. split; [done|].
    split; intros b Hb; apply lookup_lt_Some in Hb; lia.
  - destruct (chain self !! 1%nat) as [target|] eqn:Htarget.
    2:{ apply lookup_ge_None in Htarget. lia. }
    cbn [fst snd chain with_chain]. split; [|split; [intros; lia|split]].
    + rewrite list_insert_insert_eq, restore_tampered.
      rewrite list_insert_id by done. by destruct self.
    + intros b [= ->] Hvalid Hchanged.
      rewrite stale_hash_detected; [done|lia|].
      apply is_chain_valid_spec in Hvalid.
      destruct (lookup_lt_is_Some_2 (chain self) 0) as [g Hg]; [lia|].
      destruct (Hvalid 1%nat b g) as (_ & _ & Hown); [lia|done..|].
      replace (hash (tamper_first_amount b)) with (hash b);
        [congruence|].
      unfold tamper_first_amount. by destruct (transactions b).
    + intros b [= ->] Hvalid Hsame. rewrite Hsame.
      rewrite list_insert_id by done.
      replace (with_chain (chain self) self) with self by (by destruct self).
      by rewrite Hvalid.
Qed.

(** Adding 1.0 to an amount of 2^53 gives the same float. *)
Example large_amount_absorbs_one :
  (9007199254740992 + 1)%float = 9007199254740992%float.
Proof. reflexivity. Qed.

End DemonstrationFacts.

(** ** One pending identifier per sender *)

Section PendingFacts.
Context `{Runtime}.











End PendingFacts.

(** ** The stand-in without collisions *)










(** * The operations on the demonstration run *)

Section Runs.
Local Existing Instance test_runtime.

Lemma demo_funded_run :
  add_transaction demo_new "Genesis" "Alice" 100%float (test_wallet "Alice")
    1001 1001.5%float
  = (TransactionAdded, demo_funded).
Proof. vm_compute. reflexivity. Qed.

Lemma demo_mined_run :
  mine_block 5000 demo_funded "Alice" demo_clock = (Mined demo_block, demo_mined).
Proof. vm_compute. reflexivity. Qed.

Lemma demo_paying_run :
  add_transaction demo_mined "Alice" "Bob" 50%float (test_wallet "Alice")
    1004 1004.5%float
  = (TransactionAdded, demo_paying).
Proof. vm_compute. reflexivity. Qed.

Lemma demo_mined_again_run :
  mine_block 5000 demo_paying "Bob" demo_clock_soon
  = (Mined demo_block_again, demo_mined_again).
Proof. vm_compute. reflexivity. Qed.

Lemma demo_adopted_run :
  handle_chain_response demo_new (block_to_wire <$> forged_chain)
  = (Return (), demo_adopted).
Proof. vm_compute. reflexivity. Qed.

Lemma demo_adopted_funded_run :
  add_transaction demo_adopted "Genesis" "Alice" 100%float (test_wallet "Alice")
    1001 1001.5%float
  = (TransactionAdded, demo_adopted_funded).
Proof. vm_compute. reflexivity. Qed.

Lemma demo_adopted_mined_run :
  mine_block 5000 demo_adopted_funded "Alice" demo_clock
  = (Mined demo_adopted_block, demo_adopted_mined).
Proof. vm_compute. reflexivity. Qed.

Lemma demo_wiped_run :
  handle_chain_response demo_new bare_chain_data
  = (Raise (KeyError "transactions"), demo_wiped).
Proof. vm_compute. reflexivity. Qed.

Lemma reachable_demo_new : reachable demo_new.
Proof. exact (reachable_new 2 1000%float). Qed.

Lemma reachable_demo_adopted_funded : reachable demo_adopted_funded.
Proof.
  apply (reachable_step demo_adopted).
  - apply (reachable_step demo_new); [apply reachable_demo_new|].
    replace demo_adopted
      with (handle_chain_response demo_new (block_to_wire <$> forged_chain)).2
      by (by rewrite demo_adopted_run).
    constructor.
  - replace demo_adopted_funded
      with (add_transaction demo_adopted "Genesis" "Alice" 100%float
              (test_wallet "Alice") 1001 1001.5%float).2
      by (by rewrite demo_adopted_funded_run).
    constructor.
Qed.

Lemma reachable_demo_wiped : reachable demo_wiped.
Proof.
  apply (reachable_step demo_new); [apply reachable_demo_new|].
  replace demo_wiped with (handle_chain_response demo_new bare_chain_data).2
    by (by rewrite demo_wiped_run).
  constructor.
Qed.


End Runs.

(** * The theorems at work on the demonstration run *)

Section Instances.
Local Existing Instance test_runtime.

(** [demo_mined] and the same ledger with an empty [utxo_set] give Alice
    the same balance. *)
Lemma utxo_set_never_influences_witness :
  chain demo_mined = chain (with_utxo_set ∅ demo_mined) /\
  pending_transactions demo_mined = pending_transactions (with_utxo_set ∅ demo_mined) /\
  utxo_set demo_mined !! "Alice" = Some 150%float /\
  get_balance demo_mined "Alice" = get_balance (with_utxo_set ∅ demo_mined) "Alice".
Proof.
  split; [reflexivity|]. split; [reflexivity|]. split; [vm_compute; reflexivity|].
  apply (utxo_set_never_influences demo_mined (with_utxo_set ∅ demo_mined)
           eq_refl eq_refl).
Defined.

(** With 50 of her 150 coins pending, Alice's submission of 60 more is
    refused and changes nothing. *)
Lemma add_transaction_failure_unchanged_witness :
  returned
    (add_transaction demo_paying "Alice" "Charlie" 60%float (test_wallet "Alice")
       1005 1005.5%float).1 = false /\
  (add_transaction demo_paying "Alice" "Charlie" 60%float (test_wallet "Alice")
     1005 1005.5%float).2 = demo_paying.
Proof.
  split; [vm_compute; reflexivity|].
  apply (add_transaction_failure_unchanged demo_paying "Alice" "Charlie" 60%float
           (test_wallet "Alice") 1005 1005.5%float).
  vm_compute. reflexivity.
Defined.



(** The same second submission, to Bob again and within the second of the
    first, gets the identifier of the pending payment and is admitted. *)
Example same_second_resubmission_accepted :
  add_transaction demo_paying "Alice" "Bob" 10%float (test_wallet "Alice")
    1004 1004.75%float
  = (TransactionAdded,
     with_pending_transactions
       [demo_payment;
        mkTransaction "Alice" "Bob" 10%float "Alice_Bob_1004" 1004.75%float
          (Some (sign_transaction (test_wallet "Alice")
                   (mkTransaction "Alice" "Bob" 10%float "Alice_Bob_1004"
                      1004.75%float None)))]
       demo_paying).
Proof. vm_compute. reflexivity. Qed.

(** The other two ways a submission fails: Bob owns nothing yet, and a
    wallet that accepts no signature. *)
Example insufficient_balance_rejected :
  add_transaction demo_mined "Bob" "Alice" 10%float (test_wallet "Bob")
    1004 1004.5%float
  = (InsufficientBalance, demo_mined).
Proof. vm_compute. reflexivity. Qed.

Example invalid_signature_rejected :
  add_transaction demo_mined "Alice" "Bob" 10%float
    (mkWallet "Alice" (fun message => message) (fun _ _ => false))
    1004 1004.5%float
  = (InvalidSignature, demo_mined).
Proof. vm_compute. reflexivity. Qed.


(** The block of [demo_mined] carries its content hash, which starts with
    two zeros. *)
Lemma mined_block_meets_difficulty_witness :
  hash demo_block = "007daf42" /\
  hash demo_block = Block_calculate_hash demo_block /\
  leading_zeros_at_least 2 (hash demo_block).
Proof.
  split; [reflexivity|].
  destruct (mined_block_meets_difficulty 5000 demo_funded demo_mined "Alice"
              demo_clock demo_block demo_mined_run) as (Hown & _ & _ & Hzeros).
  split; [exact Hown|exact Hzeros].
Defined.

(** The second block is mined three seconds after the first adjustment
    check, less than half the target of ten: the difficulty goes from 2
    to 3. *)
Lemma difficulty_adjusted_after_mine_witness :
  bc_difficulty demo_paying = 2 /\
  last_mining_time demo_paying = 1003%float /\
  bc_difficulty demo_mined_again =
    difficulty_rule (1006 - 1003)%float 10%float 2 /\
  bc_difficulty demo_mined_again = 3.
Proof.
  split; [reflexivity|]. split; [reflexivity|]. split; [|reflexivity].
  apply (difficulty_adjusted_after_mine 5000 demo_paying demo_mined_again "Bob"
           demo_clock_soon demo_block_again demo_mined_again_run).
Defined.

(** C7 fails on the first block mined: no adjustment check was recorded,
    the clock reads 1003 seconds, more than twice the target, and the
    difficulty stays at 2 where the rule gives 1. *)
Lemma first_mine_leaves_difficulty :
  mine_block 5000 demo_funded "Alice" demo_clock = (Mined demo_block, demo_mined) /\
  last_mining_time demo_funded = 0%float /\
  difficulty_rule (adjust_time demo_clock - last_mining_time demo_funded)%float
    (target_block_time demo_funded) (bc_difficulty demo_funded) = 1 /\
  bc_difficulty demo_mined = 2.
Proof.
  split; [exact demo_mined_run|]. split; [reflexivity|].
  split; [vm_compute; reflexivity|reflexivity].
Defined.



(** C6 on a head whose stored hash was forged: after adopting
    [forged_chain], whose last block stores the hash "forged", the block
    mined next names the recomputed content hash of that head, not its
    stored hash, and [is_block_valid] would refuse it on that head. *)
Theorem mined_block_misses_forged_stored_hash :
  reachable demo_adopted_funded /\
  hash <$> last (chain demo_adopted_funded) = Some "forged" /\
  mine_block 5000 demo_adopted_funded "Alice" demo_clock
  = (Mined demo_adopted_block, demo_adopted_mined) /\
  previous_hash demo_adopted_block = "03ffa397" /\
  previous_hash demo_adopted_block <> "forged" /\
  is_block_valid demo_adopted_funded demo_adopted_block = Return false.
Proof.
  split; [exact reachable_demo_adopted_funded|].
  split; [reflexivity|]. split; [exact demo_adopted_mined_run|].
  split; [reflexivity|]. split; [discriminate|].
  vm_compute. reflexivity.
Qed.

(** C9 on a chain of incomplete block dictionaries: [bare_chain_data] is
    longer than the local chain and passes the structural check, the local
    chain is emptied, and the first dictionary, which has no key
    'transactions', raises before any block is appended. *)
Theorem incomplete_chain_empties_ledger :
  reachable demo_wiped /\
  validate_received_chain bare_chain_data = Return true /\
  handle_chain_response demo_new bare_chain_data
  = (Raise (KeyError "transactions"), demo_wiped) /\
  chain demo_wiped = [] /\
  mine_block 5000 (with_pending_transactions [demo_payment] demo_wiped) "Alice"
    demo_clock
  = (MineRaised IndexError, with_pending_transactions [demo_payment] demo_wiped).
Proof.
  split; [exact reachable_demo_wiped|].
  split; [reflexivity|]. split; [exact demo_wiped_run|].
  split; [reflexivity|]. vm_compute. reflexivity.
Qed.

End Instances.

(** * The further properties on the demonstration run *)

Section MoreInstances.
Local Existing Instance test_runtime.

Lemma reachable_local_demo_funded : reachable_local demo_funded.
Proof.
  apply (reachablel_step demo_new); [exact (reachablel_new 2 1000%float)|].
  replace demo_funded
    with (add_transaction demo_new "Genesis" "Alice" 100%float (test_wallet "Alice")
            1001 1001.5%float).2
    by (by rewrite demo_funded_run).
  apply stepl_add_transaction.
Qed.

Lemma reachable_local_demo_mined : reachable_local demo_mined.
Proof.
  apply (reachablel_step demo_funded); [exact reachable_local_demo_funded|].
  replace demo_mined with (mine_block 5000 demo_funded "Alice" demo_clock).2
    by (by rewrite demo_mined_run).
  apply stepl_mine_block.
Qed.

Lemma reachable_complete_demo_adopted : reachable_complete demo_adopted.
Proof.
  apply (reachablec_step demo_new); [exact (reachablec_new 2 1000%float)|].
  replace demo_adopted
    with (handle_chain_response demo_new (block_to_wire <$> forged_chain)).2
    by (by rewrite demo_adopted_run).
  apply stepc_handle_chain_response.
Qed.

(** Alice pays Bob 50 of her 150 coins. *)
Lemma add_transaction_moves_amount_witness :
  get_balance demo_mined "Alice" = 150%float /\
  get_balance demo_paying "Alice" = (150 - 50)%float /\
  get_balance demo_paying "Bob" = (get_balance demo_mined "Bob" + 50)%float.
Proof.
  split; [vm_compute; reflexivity|].
  destruct (add_transaction_moves_amount demo_mined demo_paying "Alice" "Bob"
              50%float (test_wallet "Alice") 1004 1004.5%float demo_paying_run)
    as (Hbob & Halice & _); [discriminate|].
  split; [exact Halice|exact Hbob].
Defined.

(** Bob mines the second block and is paid the reward of 50. *)
Lemma mine_block_pays_reward_only_witness :
  get_balance demo_mined_again "Bob" = (get_balance demo_paying "Bob" + 50)%float /\
  get_balance demo_mined_again "Alice" = get_balance demo_paying "Alice".
Proof.
  destruct (mine_block_pays_reward_only 5000 demo_paying demo_mined_again "Bob"
              demo_clock_soon demo_block_again demo_mined_again_run)
    as (Hbob & _ & Hothers); [discriminate|].
  split; [exact Hbob|]. apply Hothers; discriminate.
Defined.

(** The first mined block of the run. *)
Lemma mined_block_contents_witness :
  index demo_block = 1 /\
  sender <$> transactions demo_block = ["Genesis"; "System"] /\
  merkle_root demo_block = calculate_merkle_root (transactions demo_block) /\
  pending_transactions demo_mined = [].
Proof.
  destruct (mined_block_contents 5000 demo_funded demo_mined "Alice" demo_clock
              demo_block demo_mined_run)
    as (head & reward & _ & _ & _ & _ & _ & _ & _ & _ & Hroot & _ & _ & Hpending).
  split; [reflexivity|]. split; [reflexivity|]. split; [exact Hroot|exact Hpending].
Defined.

(** With nothing pending, [mine_block] returns nothing and changes nothing. *)
Lemma mine_block_failure_unchanged_witness :
  pending_transactions demo_mined = [] /\
  (mine_block 5000 demo_mined "Alice" demo_clock).2 = demo_mined.
Proof.
  split; [reflexivity|].
  apply (mine_block_failure_unchanged 5000 demo_mined "Alice" demo_clock).
  intros b. vm_compute. discriminate.
Defined.

(** The nonce 415 of the first mined block: 414 does not meet the target. *)
Lemma mined_nonce_is_first_witness :
  nonce demo_block = 415 /\
  startswith (Block_calculate_hash (with_nonce 414 demo_block)) "00" = false.
Proof.
  split; [reflexivity|].
  apply (mined_nonce_is_first 5000 demo_funded demo_mined "Alice" demo_clock
           demo_block demo_mined_run 414).
  vm_compute. split; [discriminate|reflexivity].
Defined.

(** The ledger of the run is honest, and stays so when Bob mines. *)
Lemma honest_ledger_preserved_witness :
  honest_ledger demo_mined /\ is_chain_valid demo_mined = true /\
  honest_ledger (mine_block 5000 demo_paying "Bob" demo_clock_soon).2.
Proof.
  pose proof (reachable_local_honest demo_mined reachable_local_demo_mined) as Hhonest.
  split; [exact Hhonest|].
  destruct (honest_ledger_preserved demo_mined Hhonest) as (Hvalid & Hadd & _).
  split; [exact Hvalid|].
  specialize (Hadd "Alice" "Bob" 50%float (test_wallet "Alice") 1004 1004.5%float).
  rewrite demo_paying_run in Hadd.
  destruct (honest_ledger_preserved demo_paying Hadd) as (_ & _ & Hmine & _).
  exact (Hmine 5000%nat "Bob" demo_clock_soon).
Defined.

(** A new node takes the two-block chain of the run. *)
Lemma local_chain_adopted_by_shorter_witness :
  length (chain demo_new) = 1%nat /\ length (chain demo_mined) = 2%nat /\
  chain (handle_chain_response demo_new (block_to_wire <$> chain demo_mined)).2
  = chain demo_mined.
Proof.
  split; [reflexivity|]. split; [reflexivity|].
  apply (local_chain_adopted_by_shorter demo_mined demo_new
           reachable_local_demo_mined).
  vm_compute. lia.
Defined.

(** The second block of the run moves the difficulty from 2 to 3. *)
Lemma difficulty_moves_by_one_witness :
  bc_difficulty demo_paying = 2 /\ bc_difficulty demo_mined_again = 3 /\
  1 <= bc_difficulty (mine_block 5000 demo_paying "Bob" demo_clock_soon).2.
Proof.
  split; [reflexivity|]. split; [reflexivity|].
  refine (proj1 (difficulty_moves_by_one demo_paying
                   (mine_block 5000 demo_paying "Bob" demo_clock_soon).2
                   (step_mine_block demo_paying 5000 "Bob" demo_clock_soon) _)).
  vm_compute. discriminate.
Defined.

(** A node that still holds the new chain takes the first mined block of
    the run from its broadcast. *)
Lemma mined_block_taken_by_peer_witness :
  chain demo_new = chain demo_funded /\
  chain (handle_new_block demo_new (block_message demo_block)).2
  = (chain demo_funded ++ [without_signatures demo_block])%list.
Proof.
  split; [reflexivity|].
  apply (mined_block_taken_by_peer 5000 demo_funded demo_mined demo_new "Alice"
           demo_clock demo_block
           (reachable_local_honest demo_funded reachable_local_demo_funded)
           eq_refl demo_mined_run).
Defined.

(** After her payment to Bob, Alice's submission to Charlie is refused. *)
Lemma next_submission_refused_witness :
  returned
    (add_transaction demo_paying "Alice" "Charlie" 10%float (test_wallet "Alice")
       1004 1004.75%float).1 = false.
Proof.
  apply (next_submission_refused demo_mined demo_paying "Alice" "Bob" "Charlie"
           50%float 10%float (test_wallet "Alice") (test_wallet "Alice")
           1004 1004 1004.5%float 1004.75%float).
  - discriminate.
  - exact demo_paying_run.
  - left. discriminate.
Defined.

(** The chain adopted from a peer starts with a block of index 0. *)
Lemma genesis_invariant_complete_witness :
  index <$> chain demo_adopted !! O = Some 0 /\ genesis_shaped demo_adopted.
Proof.
  split; [reflexivity|].
  apply (genesis_invariant_complete demo_adopted reachable_complete_demo_adopted).
Defined.

(** The first mined block of the run names the stored hash of the genesis
    block. *)
Lemma mined_block_links_to_honest_head_witness :
  hash <$> last (chain demo_funded) = Some "aaa0dbab" /\
  previous_hash demo_block = "aaa0dbab".
Proof.
  split; [reflexivity|].
  apply (mined_block_links_to_honest_head 5000 demo_funded demo_mined "Alice"
           demo_clock demo_block
           (mkBlock 0 1000%float [] "0" 0 2 "0" "aaa0dbab") demo_mined_run).
  - reflexivity.
  - vm_compute. reflexivity.
Defined.

(** Nonce 415 meets the target, so a search of 415 nonces or more returns. *)
Lemma mine_block_returns_witness :
  exists b self', mine_block 415 demo_funded "Alice" demo_clock = (Mined b, self').
Proof.
  apply (mine_block_returns 414 415 demo_funded "Alice" demo_clock
           (mkBlock 0 1000%float [] "0" 0 2 "0" "aaa0dbab")).
  - discriminate.
  - reflexivity.
  - vm_compute. reflexivity.
  - lia.
Defined.

End MoreInstances.

(** * Chain adoption on incomplete block dictionaries *)

Section AdoptionRuns.
Local Existing Instance test_runtime.

(** C4 on chains of incomplete block dictionaries. [bare_chain_data] and
    [half_chain_data] are strictly longer than the local chain of
    [demo_new] and pass the structural check, so the claim has the local
    chain replaced by the received one. [handle_chain_response] raises
    [KeyError] instead, after it has emptied the local chain: on the first
    payload the chain is left empty, on the second it is left with the
    peer's first block only. In both cases the chain is neither the local
    one nor the received one, and it is not longer than the local one. *)
Theorem incomplete_chain_neither_adopted_nor_kept :
  length (chain demo_new) = 1%nat /\
  length bare_chain_data = 2%nat /\
  validate_received_chain bare_chain_data = Return true /\
  handle_chain_response demo_new bare_chain_data
  = (Raise (KeyError "transactions"), demo_wiped) /\
  chain demo_wiped = [] /\
  length half_chain_data = 2%nat /\
  validate_received_chain half_chain_data = Return true /\
  handle_chain_response demo_new half_chain_data
  = (Raise (KeyError "transactions"), demo_cut) /\
  chain demo_cut = [mkBlock 0 999%float [] "0" 0 2 "0" "g"] /\
  chain demo_cut <> chain demo_new /\
  block_to_wire <$> chain demo_cut <> half_chain_data.
Proof.
  split; [reflexivity|]. split; [reflexivity|]. split; [reflexivity|].
  split; [vm_compute; reflexivity|]. split; [reflexivity|].
  split; [reflexivity|]. split; [reflexivity|].
  split; [vm_compute; reflexivity|]. split; [reflexivity|].
  split; [vm_compute; discriminate|]. vm_compute; discriminate.
Qed.

End AdoptionRuns.
